(** * whisp: risk classification and column ordering over result tables

    A shallow embedding of [whisp/src/tidy_tables.py]: the indicator
    deriver ([add_indicator_column], [add_indicators]), the risk classifier
    ([whisp_risk], [add_eudr_risk_col]) and the column orderer
    ([reorder_columns_by_lookup] and its helpers).

    Modelling conventions.
    - A pandas float is a [pyfloat]: a rational (every finite float64 is
      one) or an infinity or NaN.  Comparisons and [clip] are exact on
      floats and are computed here.  Addition, multiplication and division
      round, so they are not computed: the functions take them as a
      parameter [float_ops], of which float64 arithmetic is one instance.
      [exact_ops], arithmetic without rounding, is the instance used on the
      sample tables, where it gives what float64 gives.  Zero has no sign.
      An integer column is read as the floats of its values; its
      arithmetic, which wraps around at 64 bits, is another instance.
    - A table cell is either a float or a string; a missing value is NaN.
    - A DataFrame carries its row labels by position (pandas' index, which
      may repeat a label), its column labels in order, and its cells
      addressed by column label and row position.
    - [sort_values] is taken by what pandas documents of it, a sorted
      rearrangement of the rows; where the order of equal keys matters, its
      default sort is modelled after numpy's quicksort.
    - The Python functions mutate the frame they are given and return that
      same object.  They are computations in a state-and-exception monad
      whose state is the caller's frame: the final state is what the caller
      sees of its table, also when an exception escapes. *)

From Stdlib Require Import String List Bool Arith Lia QArith Permutation Sorted.
From Stdlib Require Import Ascii ZArith.
Import ListNotations.

Local Open Scope string_scope.
Local Open Scope list_scope.
Local Open Scope nat_scope.

(** ** Floats *)

Inductive pyfloat : Type :=
| Fin (q : Q)
| PInf
| NInf
| NaN.

Definition Qltb (x y : Q) : bool := negb (Qle_bool y x).

(** [a > b] *)
Definition fgt (a b : pyfloat) : bool :=
  match a, b with
  | NaN, _ | _, NaN => false
  | NInf, _ => false
  | PInf, PInf => false
  | PInf, _ => true
  | Fin _, PInf => false
  | Fin _, NInf => true
  | Fin x, Fin y => Qltb y x
  end.

(** [a < b] *)
Definition flt (a b : pyfloat) : bool := fgt b a.

(** [a <= b] *)
Definition fle (a b : pyfloat) : bool :=
  match a, b with
  | NaN, _ | _, NaN => false
  | NInf, _ => true
  | PInf, PInf => true
  | PInf, _ => false
  | Fin _, PInf => true
  | Fin _, NInf => false
  | Fin x, Fin y => Qle_bool x y
  end.

Definition fadd (a b : pyfloat) : pyfloat :=
  match a, b with
  | NaN, _ | _, NaN => NaN
  | Fin x, Fin y => Fin (x + y)
  | PInf, NInf | NInf, PInf => NaN
  | PInf, _ | _, PInf => PInf
  | NInf, _ | _, NInf => NInf
  end.

(** The infinity carrying the sign of [x], NaN for zero. *)
Definition signed_inf (x : Q) (positive : bool) : pyfloat :=
  if Qltb 0 x then (if positive then PInf else NInf)
  else if Qltb x 0 then (if positive then NInf else PInf)
  else NaN.

Definition fmul (a b : pyfloat) : pyfloat :=
  match a, b with
  | NaN, _ | _, NaN => NaN
  | Fin x, Fin y => Fin (x * y)
  | Fin x, PInf | PInf, Fin x => signed_inf x true
  | Fin x, NInf | NInf, Fin x => signed_inf x false
  | PInf, PInf | NInf, NInf => PInf
  | PInf, NInf | NInf, PInf => NInf
  end.

(** True division; a zero divisor gives an infinity, or NaN for [0 / 0]. *)
Definition fdiv (a b : pyfloat) : pyfloat :=
  match a, b with
  | NaN, _ | _, NaN => NaN
  | Fin x, Fin y => if Qeq_bool y 0 then signed_inf x true else Fin (x / y)
  | Fin _, (PInf | NInf) => Fin 0
  | PInf, Fin y => if Qltb y 0 then NInf else PInf
  | NInf, Fin y => if Qltb y 0 then PInf else NInf
  | (PInf | NInf), (PInf | NInf) => NaN
  end.

(** Python's builtin [min(a, b)] and [max(a, b)]: the first argument wins
    unless the second is strictly better. *)
Definition py_min (a b : pyfloat) : pyfloat := if flt b a then b else a.
Definition py_max (a b : pyfloat) : pyfloat := if fgt b a then b else a.

(** The arithmetic of the floats of a table: [+], [*] and [/]. *)
Class float_ops : Type := mkOps {
  f_add : pyfloat -> pyfloat -> pyfloat;
  f_mul : pyfloat -> pyfloat -> pyfloat;
  f_div : pyfloat -> pyfloat -> pyfloat
}.

(** Arithmetic without rounding. *)
Definition exact_ops : float_ops := mkOps fadd fmul fdiv.

(** The same float. *)
Definition feq (a b : pyfloat) : Prop :=
  match a, b with
  | Fin x, Fin y => (x == y)%Q
  | PInf, PInf | NInf, NInf | NaN, NaN => True
  | _, _ => False
  end.

(** Two laws of float64 arithmetic, which [exact_ops] has as well.  Adding
    a float to zero gives the float. *)
Definition ieee_sum (ops : float_ops) : Prop :=
  forall x, feq (f_add (Fin 0) x) x.

(** Dividing by zero gives infinity for a positive dividend and NaN for
    zero, and a hundred times infinity or NaN is infinity or NaN. *)
Definition ieee_division (ops : float_ops) : Prop :=
  (forall v a, (a == 0)%Q -> (0 < v)%Q -> f_div (Fin v) (Fin a) = PInf) /\
  (forall v a, (a == 0)%Q -> (v == 0)%Q -> f_div (Fin v) (Fin a) = NaN) /\
  f_mul PInf (Fin 100) = PInf /\
  f_mul NaN (Fin 100) = NaN.

(** ** Cells, Series and DataFrames *)

Inductive cell : Type :=
| CNum (x : pyfloat)
| CStr (s : string).

Definition is_num (c : cell) : bool :=
  match c with CNum _ => true | CStr _ => false end.

Definition as_num (c : cell) : pyfloat :=
  match c with CNum x => x | CStr _ => NaN end.

(** [c == s] for a string literal [s]. *)
Definition cell_eq_str (c : cell) (s : string) : bool :=
  match c with CStr s' => String.eqb s' s | CNum _ => false end.

(** An object Series: what [df[col]] or a row of [iterrows] holds. *)
Record Series : Type := mkSeries { slen : nat; sval : nat -> cell }.

(** A float64 Series: the result of arithmetic. *)
Record FSeries : Type := mkFSeries { flen : nat; fval : nat -> pyfloat }.

(** A row label: a number or a string. *)
Inductive label : Type :=
| LInt (z : Z)
| LStr (s : string).

Definition label_eqb (a b : label) : bool :=
  match a, b with
  | LInt x, LInt y => (x =? y)%Z
  | LStr x, LStr y => String.eqb x y
  | _, _ => false
  end.

Record DataFrame : Type := mkDF {
  nrows : nat;
  columns : list string;
  cell_at : string -> nat -> cell;
  row_label : nat -> label
}.

Definition has_column (df : DataFrame) (name : string) : bool :=
  existsb (String.eqb name) (columns df).

(** ** Exceptions and the frame monad *)

Inductive exn : Type :=
| ValueError (msg : string)
| KeyError (key : string)
| TypeError.

Inductive result (A : Type) : Type :=
| Ok (a : A)
| Raise (e : exn).
Arguments Ok {A} a.
Arguments Raise {A} e.

Definition M (A : Type) : Type := DataFrame -> DataFrame * result A.

Definition ret {A} (a : A) : M A := fun df => (df, Ok a).

Definition bind {A B} (m : M A) (k : A -> M B) : M B :=
  fun df =>
    match m df with
    | (df', Ok a) => k a df'
    | (df', Raise e) => (df', Raise e)
    end.

Definition lift {A} (r : result A) : M A := fun df => (df, r).

Definition get_df : M DataFrame := fun df => (df, Ok df).

Declare Scope frame_scope.
Delimit Scope frame_scope with frame.
Notation "x <- c ;; k" := (bind c (fun x => k))
  (at level 61, c at next level, right associativity) : frame_scope.
Notation "c ;; k" := (bind c (fun _ => k))
  (at level 61, right associativity) : frame_scope.
Local Open Scope frame_scope.

(** [for x in l: body] *)
Fixpoint for_each {A} (l : list A) (body : A -> M unit) : M unit :=
  match l with
  | [] => ret tt
  | x :: l' => body x ;; for_each l' body
  end.

(** Short-circuit [a or b]. *)
Definition por (a b : M bool) : M bool :=
  x <- a ;; if x then ret true else b.

(** ** pandas primitives *)

(** [df[col]] *)
Definition getitem (col : string) : M Series :=
  fun df =>
    (df, if has_column df col
         then Ok (mkSeries (nrows df) (cell_at df col))
         else Raise (KeyError col)).

(** The column labels after an assignment to [col]: a new label goes last. *)
Definition with_column (cols : list string) (col : string) : list string :=
  if existsb (String.eqb col) cols then cols else cols ++ [col].

(** The cell of [col] at row [i] as an enlarging assignment sees it: NaN
    when the column is new. *)
Definition old_cell (df : DataFrame) (col : string) (i : nat) : cell :=
  if has_column df col then cell_at df col i else CNum NaN.

(** [df[col] = v] for a scalar [v] *)
Definition setitem (col : string) (v : cell) : M unit :=
  fun df =>
    (mkDF (nrows df) (with_column (columns df) col)
          (fun c i => if String.eqb c col then v else cell_at df c i)
          (row_label df),
     Ok tt).

(** [df.loc[mask, col] = v] *)
Definition loc_set (mask : nat -> bool) (col : string) (v : cell) : M unit :=
  fun df =>
    (mkDF (nrows df) (with_column (columns df) col)
          (fun c i => if String.eqb c col
                      then (if mask i then v else old_cell df col i)
                      else cell_at df c i)
          (row_label df),
     Ok tt).

(** [df.at[index, col] = v], for the label [index] of a row of the table:
    the write goes by row label, to every row that carries it. *)
Definition at_set (index : label) (col : string) (v : cell) : M unit :=
  fun df => loc_set (fun i => label_eqb (row_label df i) index) col v df.

Definition all_numeric (s : Series) : bool :=
  forallb (fun i => is_num (sval s i)) (seq 0 (slen s)).

(** [s > t]: comparing a string cell with a float raises. *)
Definition series_gt (s : Series) (t : pyfloat) : result (nat -> bool) :=
  if all_numeric s
  then Ok (fun i => fgt (as_num (sval s i)) t)
  else Raise TypeError.

(** [a / b], element by element. *)
Definition series_div {ops : float_ops} (a b : Series) : result FSeries :=
  if all_numeric a && all_numeric b
  then Ok (mkFSeries (slen a) (fun i => f_div (as_num (sval a i)) (as_num (sval b i))))
  else Raise TypeError.

(** [s * k] *)
Definition fseries_mul {ops : float_ops} (s : FSeries) (k : pyfloat) : FSeries :=
  mkFSeries (flen s) (fun i => f_mul (fval s i) k).

Definition of_fseries (s : FSeries) : Series :=
  mkSeries (flen s) (fun i => CNum (fval s i)).

(** [Series.clip(lower, upper)]: NaN stays NaN. *)
Definition clip (lower upper : Q) (x : pyfloat) : pyfloat :=
  match x with
  | NaN => NaN
  | _ => if flt x (Fin lower) then Fin lower
         else if fgt x (Fin upper) then Fin upper
         else x
  end.

Definition series_clip (s : FSeries) (lower upper : Q) : FSeries :=
  mkFSeries (flen s) (fun i => clip lower upper (fval s i)).

(** [df[cols]] for a list of labels: the first missing label raises. *)
Fixpoint getitem_list (cols : list string) : M (list Series) :=
  match cols with
  | [] => ret []
  | c :: cols' => s <- getitem c ;; ss <- getitem_list cols' ;; ret (s :: ss)
  end.

(** [frame.sum(axis=1)]: NaN is skipped, a string cell raises. *)
Definition sum_cell {ops : float_ops} (acc : pyfloat) (c : cell) : pyfloat :=
  match as_num c with NaN => acc | x => f_add acc x end.

Definition sum_axis1 {ops : float_ops} (n : nat) (ss : list Series)
  : result FSeries :=
  if forallb all_numeric ss
  then Ok (mkFSeries n (fun i => fold_left (fun acc s => sum_cell acc (sval s i)) ss (Fin 0)))
  else Raise TypeError.

(** ** tidy_tables.py *)

Inductive pyvalue : Type :=
| VFloat (x : pyfloat)
| VSeries (s : FSeries).

Definition clamp (value : pyvalue) (min_val max_val : Q) : pyvalue :=
  match value with
  | VSeries s => VSeries (series_clip s min_val max_val)
  | VFloat x => VFloat (py_max (Fin min_val) (py_min x (Fin max_val)))
  end.

(** The Series in a value; [add_indicator_column] hands [clamp] a Series and
    gets a Series back, the float case is not reached there. *)
Definition series_of (v : pyvalue) : FSeries :=
  match v with
  | VSeries s => s
  | VFloat x => mkFSeries 0 (fun _ => x)
  end.

Definition check_range (value : pyfloat) : result unit :=
  if negb (fle (Fin 0) value && fle value (Fin 100))
  then Raise (ValueError "Value must be between 0 and 100.")
  else Ok tt.

(** An optional keyword argument: [None] when the caller leaves it out. *)
Definition kwarg {A} (given : option A) (default : A) : A :=
  match given with Some a => a | None => default end.

(** [zip(a, b, c)] stops at the shortest list. *)
Fixpoint zip3 {A B C} (a : list A) (b : list B) (c : list C) : list (A * B * C) :=
  match a, b, c with
  | x :: a', y :: b', z :: c' => (x, y, z) :: zip3 a' b' c'
  | _, _, _ => []
  end.

Section Config.

Context {ops : float_ops}.

(** The names imported from [parameters.config_runtime]. *)
Variable percent_or_ha : string.
Variable geometry_area_column : string.

(** The Series compared with the threshold for one input column. *)
Definition val_to_check (col : string) : M Series :=
  if String.eqb percent_or_ha "ha" then
    c <- getitem col ;;
    a <- getitem geometry_area_column ;;
    q <- lift (series_div c a) ;;
    ret (of_fseries (series_of (clamp (VSeries (fseries_mul q (Fin 100))) 0 100)))
  else
    getitem col.

Definition add_indicator_column
    (input_columns : list string) (threshold : pyfloat)
    (new_column_name : string)
    (low_name high_name : option string) (sum_comparison : option bool)
  : M unit :=
  let low_name := kwarg low_name "yes" in
  let high_name := kwarg high_name "no" in
  let sum_comparison := kwarg sum_comparison false in
  setitem new_column_name (CStr low_name) ;;
  if sum_comparison then
    df <- get_df ;;
    ss <- getitem_list input_columns ;;
    sum_values <- lift (sum_axis1 (nrows df) ss) ;;
    mask <- lift (series_gt (of_fseries sum_values) threshold) ;;
    loc_set mask new_column_name (CStr high_name)
  else
    for_each input_columns (fun col =>
      v <- val_to_check col ;;
      mask <- lift (series_gt v threshold) ;;
      loc_set mask new_column_name (CStr high_name)).

Definition add_indicators
    (input_cols : list (list string)) (thresholds : list pyfloat)
    (names : list string) (low_name high_name : string) : M unit :=
  for_each (zip3 input_cols thresholds names)
    (fun '(input_col, threshold, name) =>
       add_indicator_column input_col threshold name
         (Some low_name) (Some high_name) None).

(** [iterrows] takes the labels and the values of the frame when the loop
    starts; [row[name]] raises [KeyError] for a label that was not there. *)
Definition row_get (df0 : DataFrame) (index : nat) (name : string) : result cell :=
  if has_column df0 name
  then Ok (cell_at df0 name index)
  else Raise (KeyError name).

Definition row_eq (df0 : DataFrame) (index : nat) (name lit : string) : M bool :=
  c <- lift (row_get df0 index name) ;; ret (cell_eq_str c lit).

(** [df.iterrows()] yields each row with its label; [pos] is the place of
    the row, which the loop reads, and [index] its label, which the loop
    writes to. *)
Definition add_eudr_risk_col (ind_1_name ind_2_name ind_3_name ind_4_name : string)
  : M unit :=
  df0 <- get_df ;;
  for_each (seq 0 (nrows df0)) (fun pos =>
    let index := row_label df0 pos in
    let row := row_eq df0 pos in
    low <- por (row ind_1_name "no")
               (por (row ind_2_name "yes") (row ind_3_name "yes")) ;;
    if low then at_set index "EUDR_risk" (CStr "low")
    else
      more <- row ind_4_name "no" ;;
      if more then at_set index "EUDR_risk" (CStr "more_info_needed")
      else at_set index "EUDR_risk" (CStr "high")).

Definition whisp_risk
    (ind_1_pcent_threshold ind_2_pcent_threshold
     ind_3_pcent_threshold ind_4_pcent_threshold : pyfloat)
    (ind_1_input_columns ind_2_input_columns
     ind_3_input_columns ind_4_input_columns : list string)
    (ind_1_name ind_2_name ind_3_name ind_4_name : string)
    (low_name high_name : string) : M unit :=
  let input_cols :=
    [ind_1_input_columns; ind_2_input_columns;
     ind_3_input_columns; ind_4_input_columns] in
  let thresholds :=
    [ind_1_pcent_threshold; ind_2_pcent_threshold;
     ind_3_pcent_threshold; ind_4_pcent_threshold] in
  let names := [ind_1_name; ind_2_name; ind_3_name] in
  for_each thresholds (fun threshold => lift (check_range threshold)) ;;
  add_indicators input_cols thresholds names low_name high_name ;;
  add_eudr_risk_col ind_1_name ind_2_name ind_3_name ind_4_name.

End Config.

(** ** The column orderer *)

(** A row of the lookup frame, with the two columns the code reads. *)
Record lookup_row : Type := mkLookup {
  dataset_name : string;
  dataset_order : pyfloat
}.

(** The order [sort_values] sorts by, ascending with NaN last. *)
Definition key_le (a b : pyfloat) : bool :=
  match a, b with
  | _, NaN => true
  | NaN, _ => false
  | _, _ => fle a b
  end.

Definition row_le (a b : lookup_row) : Prop :=
  key_le (dataset_order a) (dataset_order b) = true.

(** [sort_values(by=["dataset_order"])] is called with the default [kind],
    "quicksort", which pandas documents as not stable: the call promises a
    rearrangement of the rows in ascending order of the key and nothing about
    rows with equal keys.  The sort is a parameter of the functions that call
    it, and [sorts] is what is known of it. *)
Definition sorts (sort_values : list lookup_row -> list lookup_row) : Prop :=
  forall l, Permutation (sort_values l) l /\ StronglySorted row_le (sort_values l).

(** [df.reindex(columns=labels)]: a new frame with exactly [labels]; a label
    the frame does not have gives a column of NaN. *)
Definition reindex_columns (df : DataFrame) (labels : list string) : DataFrame :=
  mkDF (nrows df) labels (fun c i => old_cell df c i) (row_label df).

Section Orderer.

Variable sort_values : list lookup_row -> list lookup_row.

Definition order_list_from_lookup (lookup_gee_datasets_df : list lookup_row)
  : list string :=
  map dataset_name (sort_values lookup_gee_datasets_df).

Definition create_column_list_from_lookup
    (lookup_gee_datasets_df : list lookup_row) (prefix_columns_list : list string)
  : list string :=
  let column_order_list :=
    map dataset_name (sort_values lookup_gee_datasets_df) in
  let column_order_list :=
    prefix_columns_list ++ order_list_from_lookup lookup_gee_datasets_df in
  column_order_list.

Definition reorder_columns_by_lookup
    (df : DataFrame) (lookup_gee_datasets_df : list lookup_row)
    (dataset_order_column dataset_name_column : string)
    (prefix_columns_list : option (list string)) : DataFrame :=
  let prefix_columns_list := kwarg prefix_columns_list [] in
  let column_order_list :=
    create_column_list_from_lookup lookup_gee_datasets_df prefix_columns_list in
  let df_reordered := reindex_columns df column_order_list in
  df_reordered.

End Orderer.

(** ** Concrete frames *)

(** A frame written column by column, with pandas' default row labels 0, 1,
    2, ...; a short column is padded with NaN. *)
Definition frame (n : nat) (cols : list (string * list cell)) : DataFrame :=
  mkDF n (map fst cols)
       (fun c i =>
          match find (fun p => String.eqb (fst p) c) cols with
          | Some (_, l) => nth i l (CNum NaN)
          | None => CNum NaN
          end)
       (fun i => LInt (Z.of_nat i)).


Definition num (q : Q) : cell := CNum (Fin q).

(** The column of a frame, as a list. *)
Definition column_values (df : DataFrame) (col : string) : list cell :=
  map (cell_at df col) (seq 0 (nrows df)).


(** A sort by insertion.  [insertion_sort key_le] puts a row before the
    rows of equal key already placed, which come later in the lookup table:
    it is stable. *)
Fixpoint insert_row (before : pyfloat -> pyfloat -> bool)
    (x : lookup_row) (l : list lookup_row) : list lookup_row :=
  match l with
  | [] => [x]
  | y :: l' =>
      if before (dataset_order x) (dataset_order y)
      then x :: y :: l'
      else y :: insert_row before x l'
  end.

Definition insertion_sort (before : pyfloat -> pyfloat -> bool)
    (l : list lookup_row) : list lookup_row :=
  fold_right (insert_row before) [] l.

Definition stable_sort : list lookup_row -> list lookup_row :=
  insertion_sort key_le.



(** ** The sort that [sort_values] runs by default

    With [kind="quicksort"], the default, pandas ([nargsort]) takes the rows
    whose key is NaN aside, has numpy argsort the keys of the others and puts
    the NaN rows last.  numpy's argsort of kind quicksort is the introsort of
    npysort/quicksort.cpp, modelled here after its scalar routine
    [aquicksort_]: a range of 18 entries or more is partitioned around the
    median of its first, middle and last entry, a shorter one is sorted by
    insertion.  (A build of numpy that hands the argsort of 64-bit keys to
    vectorised code orders equal keys in its own way.)  Past its depth limit
    numpy sorts a range by heapsort; that is left out, and the model then
    gives [None], as it does when it runs out of fuel. *)






Section Argsort.

(** The keys [v]; the array [tosort] of positions in [v] is a list [a], and
    a pointer into it a position [p] in [a]. *)
Variable v : list pyfloat.













End Argsort.




(** ** Specification-level definitions *)

(** A property of the frame that a computation keeps whatever its outcome. *)
Definition preserves {A} (P : DataFrame -> Prop) (m : M A) : Prop :=
  forall df, P df -> P (fst (m df)).

(** The decision rule in the words of the specification: low if indicator 1
    is "no" or indicator 2 is "yes" or indicator 3 is "yes"; otherwise
    more_info_needed if indicator 4 is "no"; otherwise high. *)
Definition eudr_risk_rule (i1 i2 i3 i4 : cell) : string :=
  if cell_eq_str i1 "no" || cell_eq_str i2 "yes" || cell_eq_str i3 "yes"
  then "low"
  else if cell_eq_str i4 "no" then "more_info_needed"
  else "high".

(** The value of [col] at row [i] after the conversion from hectares to a
    percentage of the area column. *)
Definition percent_of_area {ops : float_ops} (df : DataFrame)
    (area col : string) (i : nat) : pyfloat :=
  clip 0 100
    (f_mul (f_div (as_num (cell_at df col i)) (as_num (cell_at df area i))) (Fin 100)).

(** The value the specification compares with the threshold. *)
Definition metric {ops : float_ops} (mode area : string) (df : DataFrame)
    (col : string) (i : nat) : pyfloat :=
  if String.eqb mode "ha" then percent_of_area df area col i
  else as_num (cell_at df col i).

(** Some column of [cols] strictly exceeds [threshold] at row [i]. *)
Definition any_exceeds {ops : float_ops} (mode area : string) (df : DataFrame)
    (cols : list string) (threshold : pyfloat) (i : nat) : bool :=
  existsb (fun col => fgt (metric mode area df col i) threshold) cols.

(** The sum of the raw cells of [cols] at row [i], NaN left out. *)
Definition row_sum {ops : float_ops} (df : DataFrame) (cols : list string)
    (i : nat) : pyfloat :=
  fold_left (fun acc col => sum_cell acc (cell_at df col i)) cols (Fin 0).

(** A threshold inside the closed interval [0, 100]. *)
Definition in_range (v : pyfloat) : Prop :=
  exists q, v = Fin q /\ (0 <= q)%Q /\ (q <= 100)%Q.

(** A computation that never raises [ValueError]. *)
Definition no_value_error {A} (m : M A) : Prop :=
  forall df msg, snd (m df) <> Raise (ValueError msg).

(** The frame only ever gains columns among [allowed]. *)
Definition columns_within (allowed : list string) (df : DataFrame) : Prop :=
  incl (columns df) allowed.

(** The column [new] exists and holds one of the two labels in every row. *)
Definition labelled (new low high : string) (df : DataFrame) : Prop :=
  has_column df new = true /\
  forall i, cell_at df new i = CStr low \/ cell_at df new i = CStr high.

(** What holds of the frame [s] while [add_indicator_column] runs on [df]:
    only the column [new] differs, and it holds strings. *)
Definition deriving (df : DataFrame) (new : string) (s : DataFrame) : Prop :=
  nrows s = nrows df /\
  has_column s new = true /\
  (forall c, c <> new -> has_column s c = has_column df c) /\
  (forall c i, c <> new -> cell_at s c i = cell_at df c i) /\
  (forall i, is_num (cell_at s new i) = false).

(** The body of the loop over [input_columns]. *)
Definition check_column {ops : float_ops} (mode area new high : string) (t : pyfloat)
    (col : string) : M unit :=
  v <- val_to_check mode area col ;;
  mask <- lift (series_gt v t) ;;
  loc_set mask new (CStr high).

(** The body of the loop over the rows. *)
Definition classify_row (df0 : DataFrame) (n1 n2 n3 n4 : string) (pos : nat)
  : M unit :=
  let index := row_label df0 pos in
  let row := row_eq df0 pos in
  low <- por (row n1 "no") (por (row n2 "yes") (row n3 "yes")) ;;
  if low then at_set index "EUDR_risk" (CStr "low")
  else
    more <- row n4 "no" ;;
    if more then at_set index "EUDR_risk" (CStr "more_info_needed")
    else at_set index "EUDR_risk" (CStr "high").

(** The test that decides the label of row [i]: the sum of the raw columns
    when [sum_comparison] is set, any single column otherwise. *)
Definition over_threshold {ops : float_ops} (mode area : string) (df : DataFrame)
    (cols : list string) (threshold : pyfloat) (sum_comparison : option bool)
    (i : nat) : bool :=
  if kwarg sum_comparison false
  then fgt (row_sum df cols i) threshold
  else any_exceeds mode area df cols threshold i.

(** The defaults that the docstring of [add_indicator_column] gives for
    [low_name] and [high_name]. *)
Definition documented_low_name : string := "no".
Definition documented_high_name : string := "yes".

(** The risk label of row [i] of [df], by the rule of the specification. *)
Definition risk_label (df : DataFrame) (n1 n2 n3 n4 : string) (i : nat) : cell :=
  CStr (eudr_risk_rule (cell_at df n1 i) (cell_at df n2 i)
                       (cell_at df n3 i) (cell_at df n4 i)).


(** The last of the rows [l] that carries the label [lab]. *)
Fixpoint last_writer (df : DataFrame) (lab : label) (l : list nat) : option nat :=
  match l with
  | [] => None
  | p :: l' =>
      match last_writer df lab l' with
      | Some q => Some q
      | None => if label_eqb lab (row_label df p) then Some p else None
      end
  end.

(** The last row of [df] that carries the label of row [i]: the loop of
    [add_eudr_risk_col] writes to row [i] at each row with its label, and
    the last write stays. *)
Definition writer (df : DataFrame) (i : nat) : nat :=
  match last_writer df (row_label df i) (seq 0 (nrows df)) with
  | Some j => j
  | None => i
  end.

(** The four indicator columns of [df] hold only the labels [low] and
    [high]. *)
Definition indicator_labels (df : DataFrame) (n1 n2 n3 n4 low high : string) : Prop :=
  forall i name, i < nrows df -> In name [n1; n2; n3; n4] ->
    cell_at df name i = CStr low \/ cell_at df name i = CStr high.



(** C9 as it is stated: with any label pair other than ("no", "yes") in the
    four indicator columns, every row is labelled "high". *)
Definition other_label_pairs_give_high : Prop :=
  forall low high n1 n2 n3 n4 df df' i,
    (low, high) <> ("no", "yes") ->
    indicator_labels df n1 n2 n3 n4 low high ->
    add_eudr_risk_col n1 n2 n3 n4 df = (df', Ok tt) ->
    i < nrows df ->
    cell_at df' "EUDR_risk" i = CStr "high".


(** ** Sample tables *)

(** On the sample tables the arithmetic is [exact_ops]: their numbers are
    chosen so that no operation rounds. *)
#[local] Existing Instance exact_ops.

(** Two plots with their metrics in percent. *)
Definition plots : DataFrame :=
  frame 2 [("Area", [num 10; num 10]);
           ("treecover", [num 50; num 50]);
           ("cocoa", [num 50; num 0]);
           ("loss_before_2020", [num 0; num 0]);
           ("loss_after_2020", [num 0; num 50])].

(** The first plot alone. *)
Definition one_plot : DataFrame :=
  frame 1 [("Area", [num 10]);
           ("treecover", [num 50]);
           ("cocoa", [num 50]);
           ("loss_before_2020", [num 0]);
           ("loss_after_2020", [num 0])].

(** A plot of 10 ha with 5 ha of cocoa. *)
Definition plot_in_ha : DataFrame :=
  frame 1 [("Area", [num 10]); ("cocoa", [num 5])].

(** Two plots in hectares: 50 and 0 percent of the first, 25 and 75 percent
    of the second. *)
Definition plots_in_ha : DataFrame :=
  frame 2 [("Area", [num 10; num 4]);
           ("cocoa", [num 5; num 1]);
           ("coffee", [num 0; num 3])].

(** Three plots with their four indicators. *)
Definition classified_plots : DataFrame :=
  frame 3 [("Indicator_1_treecover", [CStr "no"; CStr "yes"; CStr "yes"]);
           ("Indicator_2_commodities", [CStr "no"; CStr "no"; CStr "no"]);
           ("Indicator_3_disturbance_before_2020", [CStr "no"; CStr "no"; CStr "no"]);
           ("Indicator_4_disturbance_after_2020", [CStr "yes"; CStr "no"; CStr "yes"])].


(** One plot with indicators written with the labels "clear" and "alert". *)
Definition relabelled_plot : DataFrame :=
  frame 1 [("Indicator_1_treecover", [CStr "alert"]);
           ("Indicator_2_commodities", [CStr "alert"]);
           ("Indicator_3_disturbance_before_2020", [CStr "clear"]);
           ("Indicator_4_disturbance_after_2020", [CStr "clear"])].

(** One plot with indicators written with [low_name = "yes"] and
    [high_name = "no"]. *)
Definition swapped_plot : DataFrame :=
  frame 1 [("Indicator_1_treecover", [CStr "no"]);
           ("Indicator_2_commodities", [CStr "no"]);
           ("Indicator_3_disturbance_before_2020", [CStr "no"]);
           ("Indicator_4_disturbance_after_2020", [CStr "no"])].

(** [whisp_risk] with the indicator names of its signature, the labels "no"
    and "yes", percent mode and one input column per indicator. *)
Definition whisp_risk_on (t1 t2 t3 t4 : pyfloat) : M unit :=
  whisp_risk "percent" "Area" t1 t2 t3 t4
    ["treecover"] ["cocoa"] ["loss_before_2020"] ["loss_after_2020"]
    "Indicator_1_treecover" "Indicator_2_commodities"
    "Indicator_3_disturbance_before_2020" "Indicator_4_disturbance_after_2020"
    "no" "yes".

(** [add_eudr_risk_col] with the indicator names of [whisp_risk]. *)
Definition classify : M unit :=
  add_eudr_risk_col
    "Indicator_1_treecover" "Indicator_2_commodities"
    "Indicator_3_disturbance_before_2020" "Indicator_4_disturbance_after_2020".



Definition lookup : list lookup_row :=
  [mkLookup "cocoa" (Fin 2); mkLookup "treecover" (Fin 1); mkLookup "rubber" (Fin 3)].

(** The column [c] is in the table and numeric in every row. *)
Definition numeric_column (df : DataFrame) (c : string) : Prop :=
  In c (columns df) /\ forall i, i < nrows df -> is_num (cell_at df c i) = true.

(** The inputs [add_indicator_column] needs to compare each column: the
    input columns are numeric columns of the table other than the new one,
    and so is the area column when it is read (ha mode, some input column). *)
Definition inputs_ready (mode area : string) (df : DataFrame)
    (cols : list string) (new : string) : Prop :=
  (forall c, In c cols -> c <> new /\ numeric_column df c) /\
  (mode = "ha" -> cols <> [] -> area <> new /\ numeric_column df area).


(** * The other helpers of tidy_tables.py *)

(** ** Python strings

    A [str] is a [string], one [ascii] per character: the names handled here
    are column names written in ASCII. *)

(** The first [n] characters. *)
Fixpoint take (n : nat) (s : string) : string :=
  match n, s with
  | S n', String c s' => String c (take n' s')
  | _, _ => EmptyString
  end.

(** What is left after the first [n] characters. *)
Fixpoint drop (n : nat) (s : string) : string :=
  match n, s with
  | S n', String _ s' => drop n' s'
  | _, _ => s
  end.

(** [s[:k]]: a negative [k] counts from the end. *)
Definition slice_to (k : Z) (s : string) : string :=
  if (0 <=? k)%Z then take (Z.to_nat k) s
  else take (String.length s - Z.to_nat (- k)) s.

(** [s[-k:]] for a positive [k]: the whole string when it is shorter. *)
Definition last_chars (k : nat) (s : string) : string :=
  drop (String.length s - k) s.

(** [p in s] *)
Fixpoint contains (p s : string) : bool :=
  String.prefix p s
  || match s with
     | EmptyString => false
     | String _ s' => contains p s'
     end.

(** [year in range(start, stop)] *)
Definition in_py_range (year start stop : Z) : bool :=
  ((start <=? year) && (year <? stop))%Z.

(** ** truncate_strings_in_list *)

Definition truncate_strings_in_list (input_list : list string) (max_length : Z)
  : list string :=
  map (slice_to max_length) input_list.

(** ** select_years_in_range *)

Section Years.

(** Python's [int(s)] on a [str]; [None] stands for [ValueError]. *)
Variable int_of_str : string -> option Z.

Definition select_years_in_range
    (string_list : list string) (min_year max_year : Z) : list string :=
  fold_left
    (fun selected_strings string =>
       if 4 <=? String.length string then
         let last_four_digits := last_chars 4 string in
         match int_of_str last_four_digits with
         | Some year =>
             if in_py_range year min_year (max_year + 1)
             then selected_strings ++ [string]
             else selected_strings
         | None => selected_strings
         end
       else selected_strings)
    string_list [].

End Years.

(** ** create_wildcard_column_list *)

(** [df.filter(like=pattern).columns.tolist()]: the labels that contain
    [pattern], in the order of the table; pandas tests [like] for truth, so
    the empty pattern counts as no argument and raises [TypeError]. *)
Definition filter_like (df : DataFrame) (like : string) : result (list string) :=
  if String.eqb like "" then Raise TypeError
  else Ok (filter (contains like) (columns df)).

(** [[f(x) for x in l]]: the first exception ends the comprehension. *)
Fixpoint comprehension {A B} (f : A -> result B) (l : list A) : result (list B) :=
  match l with
  | [] => Ok []
  | x :: l' =>
      match f x with
      | Raise e => Raise e
      | Ok y =>
          match comprehension f l' with
          | Raise e => Raise e
          | Ok ys => Ok (y :: ys)
          end
      end
  end.

Definition create_wildcard_column_list
    (df : DataFrame) (wildcard_patterns : list string) : result (list string) :=
  match comprehension (filter_like df) wildcard_patterns with
  | Raise e => Raise e
  | Ok column_lists => Ok (List.concat column_lists)
  end.

(** ** Specification-level definitions for the helpers *)

Definition is_digit (c : ascii) : bool :=
  (48 <=? nat_of_ascii c) && (nat_of_ascii c <=? 57).

Definition is_letter (c : ascii) : bool :=
  ((65 <=? nat_of_ascii c) && (nat_of_ascii c <=? 90))
  || ((97 <=? nat_of_ascii c) && (nat_of_ascii c <=? 122)).

Fixpoint all_digits (s : string) : bool :=
  match s with
  | EmptyString => true
  | String c s' => is_digit c && all_digits s'
  end.

Fixpoint has_letter (s : string) : bool :=
  match s with
  | EmptyString => false
  | String c s' => is_letter c || has_letter s'
  end.

(** The number a string of decimal digits writes. *)
Fixpoint decimal_from (acc : Z) (s : string) : Z :=
  match s with
  | EmptyString => acc
  | String c s' => decimal_from (acc * 10 + Z.of_nat (nat_of_ascii c - 48)) s'
  end.

Definition decimal_value (s : string) : Z := decimal_from 0 s.

(** What is used of [int]: four decimal digits are read as the number they
    write, and a string with a letter in it is refused. *)
Definition reads_years (int_of_str : string -> option Z) : Prop :=
  (forall s, String.length s = 4 -> all_digits s = true ->
             int_of_str s = Some (decimal_value s)) /\
  (forall s, has_letter s = true -> int_of_str s = None).

(** A reader of plain decimal numbers, which [reads_years]. *)
Definition digits_int (s : string) : option Z :=
  match s with
  | EmptyString => None
  | _ => if all_digits s then Some (decimal_value s) else None
  end.

(** The test [select_years_in_range] applies to each string. *)
Definition year_in_range (int_of_str : string -> option Z)
    (min_year max_year : Z) (s : string) : bool :=
  (4 <=? String.length s)
  && match int_of_str (last_chars 4 s) with
     | Some year => in_py_range year min_year (max_year + 1)
     | None => false
     end.

(** The labels of [df] that contain [pattern], in the order of the table. *)
Definition labels_like (df : DataFrame) (pattern : string) : list string :=
  filter (contains pattern) (columns df).

(** ** Specification-level definitions for the pipeline *)

(** [d] is [df] but for the columns [touched]: the same rows, and every
    other column there or not as in [df], with the cells of [df]. *)
Definition untouched (touched : list string) (df d : DataFrame) : Prop :=
  nrows d = nrows df /\
  forall c, ~ In c touched ->
    has_column d c = has_column df c /\
    forall i, cell_at d c i = cell_at df c i.

(** The column labels after the three indicators that [whisp_risk] derives. *)
Definition with_indicators (cols : list string) (n1 n2 n3 : string) : list string :=
  with_column (with_column (with_column cols n1) n2) n3.

(** One of the three risk labels. *)
Definition risk_value (c : cell) : Prop :=
  c = CStr "low" \/ c = CStr "more_info_needed" \/ c = CStr "high".

(** ** More sample data *)

(** A table of metrics without rows. *)
Definition no_plots : DataFrame :=
  frame 0 [("Area", []); ("treecover", []); ("cocoa", []);
           ("loss_before_2020", [])].

(** Two point-like plots, of area 0, in hectares. *)
Definition point_plots : DataFrame :=
  frame 2 [("Area", [num 0; num 0]); ("cocoa", [num 3; num 0])].

(** A plot whose cocoa metric is missing. *)
Definition gap_plot : DataFrame :=
  frame 1 [("Area", [num 10]); ("cocoa", [CNum NaN])].

Definition dataset_names : list string :=
  ["loss_2001"; "loss_2005"; "abc"; "treecover"; "x2010"].

Definition indicator_names : list string :=
  ["Indicator_1_treecover"; "Indicator_2_commodities"; "EUDR_risk"].
(** * Properties *)

(** Whatever the arithmetic of floats is. *)
Section Floats.

Context {ops : float_ops}.

(** ** The order on floats *)

Lemma Qltb_lt (x y : Q) : Qltb x y = true <-> (x < y)%Q.
Proof.
  unfold Qltb. rewrite negb_true_iff. split; intro H.
  - apply Qnot_le_lt. intro L. apply Qle_bool_iff in L. congruence.
  - destruct (Qle_bool y x) eqn:E; [|reflexivity].
    apply Qle_bool_iff in E. exfalso. exact (Qlt_not_le _ _ H E).
Qed.

Lemma check_range_spec (v : pyfloat) :
  check_range v = Ok tt <-> exists q, v = Fin q /\ (0 <= q)%Q /\ (q <= 100)%Q.
Proof.
  unfold check_range. split.
  - destruct v as [q| | |]; simpl; try discriminate.
    destruct (Qle_bool 0 q) eqn:E0; destruct (Qle_bool q 100) eqn:E1;
      simpl; try discriminate.
    intros _. exists q. repeat split; now apply Qle_bool_iff.
  - intros (q & -> & H0 & H1). simpl.
    apply Qle_bool_iff in H0. apply Qle_bool_iff in H1.
    now rewrite H0, H1.
Qed.

Lemma check_range_cases (v : pyfloat) :
  check_range v = Ok tt \/
  check_range v = Raise (ValueError "Value must be between 0 and 100.").
Proof. unfold check_range. destruct (negb _); auto. Qed.

(** ** Running computations *)

Lemma bind_run {A B} (m : M A) (k : A -> M B) df :
  bind m k df =
  match m df with
  | (df', Ok a) => k a df'
  | (df', Raise e) => (df', Raise e)
  end.
Proof. reflexivity. Qed.

Lemma bind_ok {A B} (m : M A) (k : A -> M B) df df' b :
  bind m k df = (df', Ok b) ->
  exists a df1, m df = (df1, Ok a) /\ k a df1 = (df', Ok b).
Proof.
  unfold bind. destruct (m df) as [df1 [a|e]]; intro H.
  - now exists a, df1.
  - discriminate.
Qed.

Lemma has_column_In df c : has_column df c = true <-> In c (columns df).
Proof.
  unfold has_column. rewrite existsb_exists. split.
  - intros (x & Hx & E). apply String.eqb_eq in E. now subst.
  - intro H. exists c. split; [assumption | apply String.eqb_refl].
Qed.

Lemma with_column_In cols col c :
  In c (with_column cols col) <-> In c cols \/ c = col.
Proof.
  unfold with_column. destruct (existsb (String.eqb col) cols) eqn:E.
  - split; [auto|]. intros [H| ->]; [assumption|].
    apply existsb_exists in E. destruct E as (x & Hx & E).
    apply String.eqb_eq in E. now subst.
  - rewrite in_app_iff. simpl. intuition.
Qed.

Section Preserves.

Variable P : DataFrame -> Prop.

Lemma preserves_ret {A} (a : A) : preserves P (ret a).
Proof. intros df H. exact H. Qed.

Lemma preserves_lift {A} (r : result A) : preserves P (lift r).
Proof. intros df H. exact H. Qed.

Lemma preserves_get_df : preserves P get_df.
Proof. intros df H. exact H. Qed.

Lemma preserves_getitem col : preserves P (getitem col).
Proof. intros df H. exact H. Qed.

Lemma preserves_bind {A B} (m : M A) (k : A -> M B) :
  preserves P m -> (forall a, preserves P (k a)) -> preserves P (bind m k).
Proof.
  intros Hm Hk df H. unfold bind.
  specialize (Hm df H). destruct (m df) as [df1 [a|e]]; simpl in *.
  - now apply Hk.
  - exact Hm.
Qed.

Lemma preserves_for_each {A} (l : list A) (body : A -> M unit) :
  (forall x, In x l -> preserves P (body x)) -> preserves P (for_each l body).
Proof.
  induction l as [|x l IH]; intro Hb; simpl.
  - apply preserves_ret.
  - apply preserves_bind.
    + apply Hb. now left.
    + intros _. apply IH. intros y Hy. apply Hb. now right.
Qed.

Lemma preserves_getitem_list cols : preserves P (getitem_list cols).
Proof.
  induction cols as [|c cols IH]; simpl.
  - apply preserves_ret.
  - apply preserves_bind; [apply preserves_getitem|]. intros s.
    apply preserves_bind; [exact IH|]. intros ss. apply preserves_ret.
Qed.

Lemma preserves_por (a b : M bool) :
  preserves P a -> preserves P b -> preserves P (por a b).
Proof.
  intros Ha Hb. unfold por. apply preserves_bind; [exact Ha|].
  intros [|]; [apply preserves_ret | exact Hb].
Qed.

Lemma preserves_val_to_check mode area col :
  preserves P (val_to_check mode area col).
Proof.
  unfold val_to_check. destruct (String.eqb mode "ha").
  - apply preserves_bind; [apply preserves_getitem|]. intros c.
    apply preserves_bind; [apply preserves_getitem|]. intros a.
    apply preserves_bind; [apply preserves_lift|]. intros q.
    apply preserves_ret.
  - apply preserves_getitem.
Qed.

Lemma preserves_row_eq df0 i name lit : preserves P (row_eq df0 i name lit).
Proof.
  unfold row_eq. apply preserves_bind; [apply preserves_lift|].
  intros c. apply preserves_ret.
Qed.

(** What the indicator deriver keeps, given what its two assignments
    keep. *)
Lemma preserves_add_indicator_column mode area cols t new low high sc :
  preserves P (setitem new (CStr (kwarg low "yes"))) ->
  (forall mask, preserves P (loc_set mask new (CStr (kwarg high "no")))) ->
  preserves P (add_indicator_column mode area cols t new low high sc).
Proof.
  intros Hs Hl. unfold add_indicator_column.
  apply preserves_bind; [exact Hs|]. intros _.
  destruct (kwarg sc false).
  - apply preserves_bind; [apply preserves_get_df|]. intros d.
    apply preserves_bind; [apply preserves_getitem_list|]. intros ss.
    apply preserves_bind; [apply preserves_lift|]. intros s.
    apply preserves_bind; [apply preserves_lift|]. intros mask.
    apply Hl.
  - apply preserves_for_each. intros col _.
    apply preserves_bind; [apply preserves_val_to_check|]. intros v.
    apply preserves_bind; [apply preserves_lift|]. intros mask.
    apply Hl.
Qed.

Lemma preserves_at_set index col v :
  (forall mask, preserves P (loc_set mask col v)) ->
  preserves P (at_set index col v).
Proof. intros Hl df p. unfold at_set. now apply Hl. Qed.

Lemma preserves_add_eudr_risk_col n1 n2 n3 n4 :
  (forall mask v, preserves P (loc_set mask "EUDR_risk" v)) ->
  preserves P (add_eudr_risk_col n1 n2 n3 n4).
Proof.
  intro Hl0.
  assert (Hl : forall index v, preserves P (at_set index "EUDR_risk" v)).
  { intros index v. apply preserves_at_set. intro mask. apply Hl0. }
  unfold add_eudr_risk_col.
  apply preserves_bind; [apply preserves_get_df|]. intros df0.
  apply preserves_for_each. intros i _.
  apply preserves_bind.
  - apply preserves_por; [apply preserves_row_eq|].
    apply preserves_por; apply preserves_row_eq.
  - intros [|]; [apply Hl|].
    apply preserves_bind; [apply preserves_row_eq|].
    intros [|]; apply Hl.
Qed.

End Preserves.

(** Computations that only read leave the frame as it is. *)
Lemma getitem_list_state cols df : fst (getitem_list cols df) = df.
Proof. now apply (preserves_getitem_list (fun d => d = df)). Qed.

Lemma val_to_check_state mode area col df :
  fst (val_to_check mode area col df) = df.
Proof. now apply (preserves_val_to_check (fun d => d = df)). Qed.

(** ** Which columns a call can add *)

Section ColumnsWithin.

Variable allowed : list string.

Lemma loc_set_within mask col v :
  In col allowed -> preserves (columns_within allowed) (loc_set mask col v).
Proof.
  intros Hc df H c Hin. simpl in Hin.
  apply with_column_In in Hin. destruct Hin as [Hin| ->]; auto.
Qed.

Lemma setitem_within col v : In col allowed -> preserves (columns_within allowed) (setitem col v).
Proof.
  intros Hc df H c Hin. simpl in Hin.
  apply with_column_In in Hin. destruct Hin as [Hin| ->]; auto.
Qed.

Lemma add_indicator_column_within mode area cols t new low high sc :
  In new allowed ->
  preserves (columns_within allowed) (add_indicator_column mode area cols t new low high sc).
Proof.
  intro Hn. apply preserves_add_indicator_column.
  - now apply setitem_within.
  - intro mask. now apply loc_set_within.
Qed.

Lemma zip3_names {A B C} (a : list A) (b : list B) (c : list C) x y z :
  In (x, y, z) (zip3 a b c) -> In z c.
Proof.
  revert b c. induction a as [|x0 a IH]; intros [|y0 b] [|z0 c]; simpl;
    try contradiction.
  intros [E|H].
  - inversion E. now left.
  - right. now apply (IH b c).
Qed.

Lemma add_indicators_within mode area input_cols thresholds names low high :
  incl names allowed ->
  preserves (columns_within allowed) (add_indicators mode area input_cols thresholds names low high).
Proof.
  intro Hn. unfold add_indicators. apply preserves_for_each.
  intros [[ic t] n] Hin. apply add_indicator_column_within.
  apply Hn. exact (zip3_names _ _ _ _ _ _ Hin).
Qed.

Lemma add_eudr_risk_col_within n1 n2 n3 n4 :
  In "EUDR_risk" allowed -> preserves (columns_within allowed) (add_eudr_risk_col n1 n2 n3 n4).
Proof.
  intro He. apply preserves_add_eudr_risk_col.
  intros mask v. now apply loc_set_within.
Qed.

Lemma whisp_risk_within mode area t1 t2 t3 t4 c1 c2 c3 c4 n1 n2 n3 n4 low high :
  In n1 allowed -> In n2 allowed -> In n3 allowed -> In "EUDR_risk" allowed ->
  preserves (columns_within allowed)
    (whisp_risk mode area t1 t2 t3 t4 c1 c2 c3 c4 n1 n2 n3 n4 low high).
Proof.
  intros H1 H2 H3 He. unfold whisp_risk.
  apply preserves_bind.
  { apply preserves_for_each. intros t _. apply preserves_lift. }
  intros _. apply preserves_bind.
  { apply add_indicators_within. intros n [<-|[<-|[<-|[]]]]; assumption. }
  intros _. now apply add_eudr_risk_col_within.
Qed.

End ColumnsWithin.

(** [whisp_risk] adds no column beyond the first three indicator columns and
    the risk column: the list of names it hands to [add_indicators] holds
    [ind_1_name], [ind_2_name] and [ind_3_name] only, and [zip] stops there. *)
Lemma whisp_risk_columns mode area t1 t2 t3 t4 c1 c2 c3 c4 n1 n2 n3 n4 low high df c :
  In c (columns
          (fst (whisp_risk mode area t1 t2 t3 t4 c1 c2 c3 c4 n1 n2 n3 n4 low high df))) ->
  In c (columns df) \/ c = n1 \/ c = n2 \/ c = n3 \/ c = "EUDR_risk".
Proof.
  intro H.
  pose (allowed := columns df ++ [n1; n2; n3; "EUDR_risk"]).
  assert (W : columns_within allowed
                (fst (whisp_risk mode area t1 t2 t3 t4 c1 c2 c3 c4
                        n1 n2 n3 n4 low high df))).
  { apply whisp_risk_within; unfold allowed; try (apply in_or_app; right; simpl; tauto).
    unfold columns_within. apply incl_appl, incl_refl. }
  apply W in H. unfold allowed in H. apply in_app_or in H.
  destruct H as [H|H]; [now left|]. simpl in H.
  right. intuition.
Qed.

Lemma whisp_risk_no_fourth_column
    mode area t1 t2 t3 t4 c1 c2 c3 c4 n1 n2 n3 n4 low high df :
  ~ In n4 (columns df) ->
  n4 <> n1 -> n4 <> n2 -> n4 <> n3 -> n4 <> "EUDR_risk" ->
  has_column
    (fst (whisp_risk mode area t1 t2 t3 t4 c1 c2 c3 c4 n1 n2 n3 n4 low high df))
    n4 = false.
Proof.
  intros Hin H1 H2 H3 He.
  destruct (has_column _ n4) eqn:E; [|reflexivity].
  apply has_column_In in E. apply whisp_risk_columns in E. intuition.
Qed.

(** ** Which calls can raise [ValueError] *)

Lemma nve_ret {A} (a : A) : no_value_error (ret a).
Proof. intros df msg. discriminate. Qed.

Lemma nve_lift {A} (r : result A) :
  (forall msg, r <> Raise (ValueError msg)) -> no_value_error (lift r).
Proof. intros H df msg. apply H. Qed.

Lemma nve_bind {A B} (m : M A) (k : A -> M B) :
  no_value_error m -> (forall a, no_value_error (k a)) -> no_value_error (bind m k).
Proof.
  intros Hm Hk df msg. unfold bind.
  specialize (Hm df msg). destruct (m df) as [df1 [a|e]]; simpl in *.
  - apply Hk.
  - intro E. apply Hm. inversion E. reflexivity.
Qed.

Lemma nve_for_each {A} (l : list A) (body : A -> M unit) :
  (forall x, In x l -> no_value_error (body x)) -> no_value_error (for_each l body).
Proof.
  induction l as [|x l IH]; intro Hb; simpl.
  - apply nve_ret.
  - apply nve_bind; [apply Hb; now left|].
    intros _. apply IH. intros y Hy. apply Hb. now right.
Qed.

Lemma nve_getitem col : no_value_error (getitem col).
Proof. intros df msg. simpl. destruct (has_column df col); discriminate. Qed.

Lemma nve_getitem_list cols : no_value_error (getitem_list cols).
Proof.
  induction cols as [|c cols IH]; simpl.
  - apply nve_ret.
  - apply nve_bind; [apply nve_getitem|]. intros s.
    apply nve_bind; [exact IH|]. intros ss. apply nve_ret.
Qed.

Lemma nve_loc_set mask col v : no_value_error (loc_set mask col v).
Proof. intros df msg. discriminate. Qed.

Lemma nve_at_set index col v : no_value_error (at_set index col v).
Proof. intros df msg. discriminate. Qed.

Lemma nve_setitem col v : no_value_error (setitem col v).
Proof. intros df msg. discriminate. Qed.

Lemma nve_series_gt s t : no_value_error (lift (series_gt s t)).
Proof.
  apply nve_lift. intro msg. unfold series_gt.
  destruct (all_numeric s); discriminate.
Qed.

Lemma nve_series_div a b : no_value_error (lift (series_div a b)).
Proof.
  apply nve_lift. intro msg. unfold series_div.
  destruct (all_numeric a && all_numeric b); discriminate.
Qed.

Lemma nve_sum_axis1 n ss : no_value_error (lift (sum_axis1 n ss)).
Proof.
  apply nve_lift. intro msg. unfold sum_axis1.
  destruct (forallb all_numeric ss); discriminate.
Qed.

Lemma nve_val_to_check mode area col : no_value_error (val_to_check mode area col).
Proof.
  unfold val_to_check. destruct (String.eqb mode "ha").
  - apply nve_bind; [apply nve_getitem|]. intros c.
    apply nve_bind; [apply nve_getitem|]. intros a.
    apply nve_bind; [apply nve_series_div|]. intros q. apply nve_ret.
  - apply nve_getitem.
Qed.

Lemma nve_add_indicator_column mode area cols t new low high sc :
  no_value_error (add_indicator_column mode area cols t new low high sc).
Proof.
  unfold add_indicator_column.
  apply nve_bind; [apply nve_setitem|]. intros _.
  destruct (kwarg sc false).
  - apply nve_bind; [intros df msg; discriminate|]. intros d.
    apply nve_bind; [apply nve_getitem_list|]. intros ss.
    apply nve_bind; [apply nve_sum_axis1|]. intros s.
    apply nve_bind; [apply nve_series_gt|]. intros mask.
    apply nve_loc_set.
  - apply nve_for_each. intros col _.
    apply nve_bind; [apply nve_val_to_check|]. intros v.
    apply nve_bind; [apply nve_series_gt|]. intros mask.
    apply nve_loc_set.
Qed.

Lemma nve_row_eq df0 i name lit : no_value_error (row_eq df0 i name lit).
Proof.
  unfold row_eq. apply nve_bind.
  - apply nve_lift. intro msg. unfold row_get.
    destruct (has_column df0 name); discriminate.
  - intros c. apply nve_ret.
Qed.

Lemma nve_por (a b : M bool) :
  no_value_error a -> no_value_error b -> no_value_error (por a b).
Proof.
  intros Ha Hb. unfold por. apply nve_bind; [exact Ha|].
  intros [|]; [apply nve_ret | exact Hb].
Qed.

Lemma nve_add_eudr_risk_col n1 n2 n3 n4 :
  no_value_error (add_eudr_risk_col n1 n2 n3 n4).
Proof.
  unfold add_eudr_risk_col.
  apply nve_bind; [intros df msg; discriminate|]. intros df0.
  apply nve_for_each. intros i _.
  apply nve_bind.
  - apply nve_por; [apply nve_row_eq|]. apply nve_por; apply nve_row_eq.
  - intros [|]; [apply nve_at_set|].
    apply nve_bind; [apply nve_row_eq|].
    intros [|]; apply nve_at_set.
Qed.

Lemma nve_add_indicators mode area input_cols thresholds names low high :
  no_value_error (add_indicators mode area input_cols thresholds names low high).
Proof.
  unfold add_indicators. apply nve_for_each.
  intros [[ic t] n] _. apply nve_add_indicator_column.
Qed.

(** ** The range check *)

Lemma check_range_in_range (v : pyfloat) : check_range v = Ok tt <-> in_range v.
Proof. apply check_range_spec. Qed.

Lemma check_range_out_of_range (v : pyfloat) :
  ~ in_range v ->
  check_range v = Raise (ValueError "Value must be between 0 and 100.").
Proof.
  intro H. destruct (check_range_cases v) as [E|E]; [|exact E].
  apply check_range_in_range in E. contradiction.
Qed.

(** C3. With a threshold outside [0, 100], [whisp_risk] raises [ValueError]
    and the caller's table is the input table, untouched; with the four
    thresholds inside the interval it raises no [ValueError]; 0 and 100 are
    inside. *)
Theorem whisp_risk_range_check
    mode area t1 t2 t3 t4 c1 c2 c3 c4 n1 n2 n3 n4 low high df :
  (~ in_range t1 \/ ~ in_range t2 \/ ~ in_range t3 \/ ~ in_range t4 ->
   whisp_risk mode area t1 t2 t3 t4 c1 c2 c3 c4 n1 n2 n3 n4 low high df
   = (df, Raise (ValueError "Value must be between 0 and 100.")))
  /\ (in_range t1 -> in_range t2 -> in_range t3 -> in_range t4 ->
      forall msg,
        snd (whisp_risk mode area t1 t2 t3 t4 c1 c2 c3 c4 n1 n2 n3 n4 low high df)
        <> Raise (ValueError msg))
  /\ check_range (Fin 0) = Ok tt
  /\ check_range (Fin 100) = Ok tt.
Proof.
  split; [|split; [|split; reflexivity]].
  - intro H. unfold whisp_risk. rewrite bind_run. simpl for_each.
    unfold bind at 1, lift at 1.
    destruct (check_range_cases t1) as [E1|E1]; rewrite E1; [|reflexivity].
    unfold bind at 1, lift at 1.
    destruct (check_range_cases t2) as [E2|E2]; rewrite E2; [|reflexivity].
    unfold bind at 1, lift at 1.
    destruct (check_range_cases t3) as [E3|E3]; rewrite E3; [|reflexivity].
    unfold bind at 1, lift at 1.
    destruct (check_range_cases t4) as [E4|E4]; rewrite E4; [|reflexivity].
    apply check_range_in_range in E1, E2, E3, E4. tauto.
  - intros H1 H2 H3 H4. revert df.
    change (no_value_error
              (whisp_risk mode area t1 t2 t3 t4 c1 c2 c3 c4 n1 n2 n3 n4 low high)).
    unfold whisp_risk. apply nve_bind.
    + apply nve_for_each. intros t Ht. apply nve_lift. intro msg.
      assert (E : check_range t = Ok tt).
      { apply check_range_in_range.
        destruct Ht as [<-|[<-|[<-|[<-|[]]]]]; assumption. }
      rewrite E. discriminate.
    + intros _. apply nve_bind; [apply nve_add_indicators|].
      intros _. apply nve_add_eudr_risk_col.
Qed.

(** ** The indicator deriver *)

Lemma has_column_with_column df col c :
  existsb (String.eqb c) (with_column (columns df) col)
  = has_column df c || String.eqb c col.
Proof.
  apply eq_true_iff_eq. rewrite orb_true_iff, String.eqb_eq.
  rewrite has_column_In. rewrite existsb_exists. split.
  - intros (x & Hx & E). apply String.eqb_eq in E. subst x.
    now apply with_column_In in Hx.
  - intro H. exists c. split; [now apply with_column_In | apply String.eqb_refl].
Qed.

Lemma setitem_labelled new low high df :
  labelled new low high (fst (setitem new (CStr low) df)).
Proof.
  split; simpl.
  - unfold has_column. simpl. rewrite has_column_with_column.
    rewrite String.eqb_refl. apply orb_true_r.
  - intro i. rewrite String.eqb_refl. now left.
Qed.

Lemma loc_set_labelled new low high mask :
  preserves (labelled new low high) (loc_set mask new (CStr high)).
Proof.
  intros df [Hc Hl]. split; simpl.
  - unfold has_column. simpl. rewrite has_column_with_column.
    rewrite String.eqb_refl. apply orb_true_r.
  - intro i. rewrite String.eqb_refl. destruct (mask i); [now right|].
    unfold old_cell. rewrite Hc. apply Hl.
Qed.

Lemma add_indicator_column_nrows mode area cols t new low high sc df :
  nrows (fst (add_indicator_column mode area cols t new low high sc df)) = nrows df.
Proof.
  apply (preserves_add_indicator_column (fun d => nrows d = nrows df));
    [| |reflexivity]; intros; intros d H; exact H.
Qed.

(** C4. Whatever the table, the threshold and the other arguments, and
    whether the call returns or raises, the column [new_column_name] of the
    caller's table exists afterwards and every row of it holds [low_name] or
    [high_name]; the table keeps its rows. *)
Theorem add_indicator_column_two_labels
    mode area cols t new low high sc df i :
  let df' := fst (add_indicator_column mode area cols t new
                    (Some low) (Some high) sc df) in
  i < nrows df' ->
  nrows df' = nrows df /\
  In new (columns df') /\
  (cell_at df' new i = CStr low \/ cell_at df' new i = CStr high).
Proof.
  intros df' _.
  assert (L : labelled new low high df').
  { unfold df', add_indicator_column. rewrite bind_run.
    change (setitem new (CStr (kwarg (Some low) "yes")) df)
      with (fst (setitem new (CStr low) df), @Ok unit tt).
    cbv iota beta.
    set (rest := if kwarg sc false then _ else _).
    assert (R : preserves (labelled new low high) rest).
    { unfold rest. destruct (kwarg sc false).
      - apply preserves_bind; [apply preserves_get_df|]. intros d.
        apply preserves_bind; [apply preserves_getitem_list|]. intros ss.
        apply preserves_bind; [apply preserves_lift|]. intros s.
        apply preserves_bind; [apply preserves_lift|]. intros mask.
        apply loc_set_labelled.
      - apply preserves_for_each. intros col _.
        apply preserves_bind; [apply preserves_val_to_check|]. intros v.
        apply preserves_bind; [apply preserves_lift|]. intros mask.
        apply loc_set_labelled. }
    apply R. apply setitem_labelled. }
  destruct L as [Hc Hl]. split; [|split].
  - apply add_indicator_column_nrows.
  - now apply has_column_In.
  - apply Hl.
Qed.

Lemma all_numeric_at s i :
  all_numeric s = true -> i < slen s -> is_num (sval s i) = true.
Proof.
  unfold all_numeric. rewrite forallb_forall. intros H Hi.
  apply H. apply in_seq. lia.
Qed.

Lemma series_gt_ok s t mask :
  series_gt s t = Ok mask ->
  all_numeric s = true /\ mask = (fun i => fgt (as_num (sval s i)) t).
Proof.
  unfold series_gt. destruct (all_numeric s); [|discriminate].
  intro E. inversion E. now split.
Qed.

Lemma getitem_ok col df df' s :
  getitem col df = (df', Ok s) ->
  df' = df /\ has_column df col = true /\ s = mkSeries (nrows df) (cell_at df col).
Proof.
  unfold getitem. destruct (has_column df col); intro E; inversion E; auto.
Qed.

Lemma series_div_ok a b q :
  series_div a b = Ok q ->
  all_numeric a = true /\ all_numeric b = true /\
  q = mkFSeries (slen a) (fun i => f_div (as_num (sval a i)) (as_num (sval b i))).
Proof.
  unfold series_div.
  destruct (all_numeric a); destruct (all_numeric b); simpl; try discriminate.
  intro E. inversion E. auto.
Qed.

Section Deriving.

Variables mode area : string.
Variable df : DataFrame.
Variables new high : string.
Variable t : pyfloat.

(** In a frame being derived, a cell that is numeric in a row of the table
    is not in the new column, and is the input table's cell. *)
Lemma deriving_numeric s c i :
  deriving df new s -> is_num (cell_at s c i) = true ->
  c <> new /\ cell_at s c i = cell_at df c i.
Proof.
  intros (_ & _ & _ & Hcell & Hstr) Hn.
  assert (c <> new) by (intros ->; rewrite Hstr in Hn; discriminate).
  auto.
Qed.

Lemma loc_set_deriving s mask :
  deriving df new s -> deriving df new (fst (loc_set mask new (CStr high) s)).
Proof.
  intros (Hn & Hc & Hcols & Hcell & Hstr).
  repeat split; simpl.
  - exact Hn.
  - unfold has_column. simpl. rewrite has_column_with_column.
    rewrite String.eqb_refl. apply orb_true_r.
  - intros c Hne. unfold has_column at 1. simpl.
    rewrite has_column_with_column.
    apply String.eqb_neq in Hne. rewrite Hne, orb_false_r. now apply Hcols, String.eqb_neq.
  - intros c i Hne. apply String.eqb_neq in Hne. rewrite Hne.
    now apply Hcell, String.eqb_neq.
  - intro i. rewrite String.eqb_refl. destruct (mask i); [reflexivity|].
    unfold old_cell. rewrite Hc. apply Hstr.
Qed.

(** The Series compared with the threshold holds, in every row of the
    table, the metric of the input table. *)
Lemma val_to_check_metric s s' v col i :
  deriving df new s ->
  val_to_check mode area col s = (s', Ok v) ->
  all_numeric v = true ->
  i < nrows df ->
  as_num (sval v i) = metric mode area df col i.
Proof.
  intros D E Hv Hi. destruct D as (Hn & D').
  assert (D : deriving df new s) by (split; assumption).
  unfold val_to_check, metric in *. destruct (String.eqb mode "ha").
  - apply bind_ok in E. destruct E as (c & s1 & Ec & E).
    apply getitem_ok in Ec. destruct Ec as (-> & _ & ->).
    apply bind_ok in E. destruct E as (a & s2 & Ea & E).
    apply getitem_ok in Ea. destruct Ea as (-> & _ & ->).
    apply bind_ok in E. destruct E as (q & s3 & Eq & E).
    unfold lift in Eq. inversion Eq; subst s3. clear Eq.
    match goal with H : series_div _ _ = Ok q |- _ =>
      apply series_div_ok in H; destruct H as (Hc & Ha & ->) end.
    unfold ret in E. inversion E; subst. simpl.
    apply all_numeric_at with (i := i) in Hc; [|simpl; lia].
    apply all_numeric_at with (i := i) in Ha; [|simpl; lia].
    simpl in Hc, Ha.
    destruct (deriving_numeric _ _ _ D Hc) as [_ ->].
    destruct (deriving_numeric _ _ _ D Ha) as [_ ->].
    reflexivity.
  - apply getitem_ok in E. destruct E as (-> & _ & ->).
    apply all_numeric_at with (i := i) in Hv; [|simpl; lia].
    simpl in *. destruct (deriving_numeric _ _ _ D Hv) as [_ ->].
    reflexivity.
Qed.

Lemma check_column_step s s' col :
  deriving df new s ->
  check_column mode area new high t col s = (s', Ok tt) ->
  deriving df new s' /\
  forall i, i < nrows df ->
    cell_at s' new i =
    if fgt (metric mode area df col i) t then CStr high else cell_at s new i.
Proof.
  intros D E. unfold check_column in E.
  apply bind_ok in E. destruct E as (v & s1 & Ev & E).
  assert (s1 = s).
  { pose proof (val_to_check_state mode area col s) as F.
    rewrite Ev in F. exact F. }
  subst s1.
  apply bind_ok in E. destruct E as (mask & s2 & Em & E).
  unfold lift in Em. inversion Em; subst s2. clear Em.
  match goal with H : series_gt _ _ = Ok mask |- _ =>
    apply series_gt_ok in H; destruct H as (Hv & ->) end.
  assert (s' = fst (loc_set (fun i => fgt (as_num (sval v i)) t) new (CStr high) s))
    by (rewrite E; reflexivity).
  subst s'. split; [now apply loc_set_deriving|].
  intros i Hi. simpl. rewrite String.eqb_refl.
  rewrite (val_to_check_metric s s v col i D Ev Hv Hi).
  destruct (fgt _ t); [reflexivity|].
  unfold old_cell. destruct D as (_ & Hc & _). now rewrite Hc.
Qed.

Lemma columns_loop cols : forall s s',
  deriving df new s ->
  for_each cols (check_column mode area new high t) s = (s', Ok tt) ->
  deriving df new s' /\
  forall i, i < nrows df ->
    cell_at s' new i =
    if any_exceeds mode area df cols t i then CStr high else cell_at s new i.
Proof.
  induction cols as [|col cols IH]; intros s s' D E; simpl in E.
  - unfold ret in E. inversion E; subst. split; [assumption|].
    intros i _. reflexivity.
  - apply bind_ok in E. destruct E as ([] & s1 & E1 & E).
    destruct (check_column_step _ _ _ D E1) as [D1 H1].
    destruct (IH _ _ D1 E) as [D' H']. split; [assumption|].
    intros i Hi. rewrite (H' i Hi), (H1 i Hi).
    unfold any_exceeds. simpl.
    destruct (fgt (metric mode area df col i) t); simpl;
      destruct (existsb _ cols); reflexivity.
Qed.

End Deriving.

Lemma setitem_deriving df new v :
  is_num v = false -> deriving df new (fst (setitem new v df)).
Proof.
  intro Hv. repeat split; simpl.
  - unfold has_column. simpl. rewrite has_column_with_column.
    rewrite String.eqb_refl. apply orb_true_r.
  - intros c Hne. unfold has_column at 1. simpl. rewrite has_column_with_column.
    apply String.eqb_neq in Hne. now rewrite Hne, orb_false_r.
  - intros c i Hne. apply String.eqb_neq in Hne. now rewrite Hne.
  - intro i. now rewrite String.eqb_refl.
Qed.

(** The label of every row when each column is compared on its own. *)
Lemma add_indicator_column_each mode area cols t new low high df df' i :
  add_indicator_column mode area cols t new (Some low) (Some high) (Some false) df
  = (df', Ok tt) ->
  i < nrows df ->
  cell_at df' new i =
  CStr (if any_exceeds mode area df cols t i then high else low).
Proof.
  intros E Hi. unfold add_indicator_column in E. simpl kwarg in E.
  cbv iota in E. apply bind_ok in E. destruct E as ([] & s0 & E0 & E).
  assert (s0 = fst (setitem new (CStr low) df)) by (rewrite E0; reflexivity).
  subst s0.
  destruct (columns_loop mode area df new high t cols _ _
              (setitem_deriving df new (CStr low) eq_refl) E) as [_ H].
  rewrite (H i Hi). simpl. rewrite String.eqb_refl.
  now destruct (any_exceeds mode area df cols t i).
Qed.

Lemma getitem_list_ok cols : forall df df' ss,
  getitem_list cols df = (df', Ok ss) ->
  df' = df /\ ss = map (fun c => mkSeries (nrows df) (cell_at df c)) cols.
Proof.
  induction cols as [|c cols IH]; intros df df' ss E; simpl in E.
  - unfold ret in E. inversion E. now split.
  - apply bind_ok in E. destruct E as (s & d1 & Es & E).
    apply getitem_ok in Es. destruct Es as (-> & _ & ->).
    apply bind_ok in E. destruct E as (ss' & d2 & Ess & E).
    apply IH in Ess. destruct Ess as (-> & ->).
    unfold ret in E. inversion E. now split.
Qed.

Lemma fold_row_sum (s df : DataFrame) n i cols : forall acc,
  (forall c, In c cols -> cell_at s c i = cell_at df c i) ->
  fold_left (fun a x => sum_cell a (sval x i))
            (map (fun c => mkSeries n (cell_at s c)) cols) acc
  = fold_left (fun a c => sum_cell a (cell_at df c i)) cols acc.
Proof.
  induction cols as [|c cols IH]; intros acc H; simpl; [reflexivity|].
  rewrite (H c (or_introl eq_refl)). apply IH.
  intros c' Hc'. apply H. now right.
Qed.

Lemma sum_step df new high t cols s s' :
  deriving df new s ->
  (d <- get_df ;;
   ss <- getitem_list cols ;;
   sum_values <- lift (sum_axis1 (nrows d) ss) ;;
   mask <- lift (series_gt (of_fseries sum_values) t) ;;
   loc_set mask new (CStr high)) s = (s', Ok tt) ->
  forall i, i < nrows df ->
    cell_at s' new i =
    if fgt (row_sum df cols i) t then CStr high else cell_at s new i.
Proof.
  intros D E i Hi.
  apply bind_ok in E. destruct E as (d & s1 & Ed & E).
  unfold get_df in Ed. inversion Ed; subst s1 d. clear Ed.
  apply bind_ok in E. destruct E as (ss & s1 & Ess & E).
  apply getitem_list_ok in Ess. destruct Ess as (-> & ->).
  apply bind_ok in E. destruct E as (sv & s1 & Esv & E).
  unfold lift in Esv. inversion Esv as [[Es1 Hsum]]. subst s1. clear Esv.
  unfold sum_axis1 in Hsum.
  destruct (forallb all_numeric _) eqn:Hall; [|discriminate].
  inversion Hsum; subst sv. clear Hsum.
  apply bind_ok in E. destruct E as (mask & s1 & Em & E).
  unfold lift in Em. inversion Em as [[Es1 Hgt]]. subst s1. clear Em.
  apply series_gt_ok in Hgt. destruct Hgt as (_ & ->).
  unfold loc_set in E. injection E as <-. simpl.
  rewrite String.eqb_refl. rewrite (fold_row_sum _ df).
  - fold (row_sum df cols i). destruct (fgt (row_sum df cols i) t); [reflexivity|].
    unfold old_cell. destruct D as (_ & Hc & _). now rewrite Hc.
  - intros c Hc. rewrite forallb_forall in Hall.
    assert (Hn : all_numeric (mkSeries (nrows s) (cell_at s c)) = true).
    { apply Hall. apply in_map_iff. now exists c. }
    apply all_numeric_at with (i := i) in Hn;
      [|simpl; destruct D as (-> & _); lia].
    simpl in Hn. now destruct (deriving_numeric df new s c i D Hn).
Qed.

(** The label of every row when the sum of the columns is compared. *)
Lemma add_indicator_column_sum mode area cols t new low high df df' i :
  add_indicator_column mode area cols t new (Some low) (Some high) (Some true) df
  = (df', Ok tt) ->
  i < nrows df ->
  cell_at df' new i = CStr (if fgt (row_sum df cols i) t then high else low).
Proof.
  intros E Hi. unfold add_indicator_column in E. simpl kwarg in E.
  cbv iota in E. apply bind_ok in E. destruct E as ([] & s0 & E0 & E).
  assert (s0 = fst (setitem new (CStr low) df)) by (rewrite E0; reflexivity).
  subst s0. clear E0.
  rewrite (sum_step df new high t cols _ _
             (setitem_deriving df new (CStr low) eq_refl) E i Hi).
  simpl. rewrite String.eqb_refl.
  now destruct (fgt (row_sum df cols i) t).
Qed.

Lemma all_numeric_of_fseries f : all_numeric (of_fseries f) = true.
Proof. unfold all_numeric. apply forallb_forall. reflexivity. Qed.

Lemma deriving_column df new s c :
  deriving df new s -> c <> new -> numeric_column df c ->
  has_column s c = true /\
  all_numeric (mkSeries (nrows s) (cell_at s c)) = true.
Proof.
  intros (Hn & _ & Hcols & Hcell & _) Hne [Hin Hnum]. split.
  - rewrite (Hcols c Hne). now apply has_column_In.
  - unfold all_numeric. apply forallb_forall. intros i Hi. simpl in *.
    apply in_seq in Hi. rewrite (Hcell c i Hne). apply Hnum. lia.
Qed.

(** With its inputs ready, the comparison of one column returns. *)
Lemma check_column_returns mode area df new high t col s :
  deriving df new s ->
  col <> new -> numeric_column df col ->
  (mode = "ha" -> area <> new /\ numeric_column df area) ->
  exists s', check_column mode area new high t col s = (s', Ok tt) /\
             deriving df new s'.
Proof.
  intros D Hne Hcol Harea.
  destruct (deriving_column df new s col D Hne Hcol) as [Hc Hnum].
  unfold check_column, val_to_check.
  destruct (String.eqb mode "ha") eqn:Em.
  - apply String.eqb_eq in Em. destruct (Harea Em) as [Hane Hacol].
    destruct (deriving_column df new s area D Hane Hacol) as [Ha Hanum].
    unfold bind, getitem, lift, ret, series_div, series_gt.
    rewrite Hc, Ha, Hnum, Hanum. simpl andb. cbv iota.
    rewrite all_numeric_of_fseries.
    eexists. split; [reflexivity|]. now apply loc_set_deriving.
  - unfold bind, getitem, lift, series_gt. rewrite Hc, Hnum.
    eexists. split; [reflexivity|]. now apply loc_set_deriving.
Qed.

Lemma columns_loop_returns mode area df new high t cols : forall s,
  deriving df new s ->
  inputs_ready mode area df cols new ->
  exists s', for_each cols (check_column mode area new high t) s = (s', Ok tt).
Proof.
  induction cols as [|col cols IH]; intros s D [Hcols Harea]; simpl.
  - now exists s.
  - destruct (Hcols col (or_introl eq_refl)) as [Hne Hcol].
    destruct (check_column_returns mode area df new high t col s D Hne Hcol)
      as (s1 & E1 & D1).
    { intro Hm. apply Harea; [assumption | discriminate]. }
    unfold bind at 1. rewrite E1.
    apply (IH s1 D1). split.
    + intros c Hc. apply Hcols. now right.
    + intros Hm Hcons. apply Harea; [assumption | discriminate].
Qed.

(** With its inputs ready, [add_indicator_column] returns. *)
Lemma add_indicator_column_returns mode area cols t new low high sc df :
  kwarg sc false = false ->
  inputs_ready mode area df cols new ->
  exists df',
    add_indicator_column mode area cols t new (Some low) (Some high) sc df
    = (df', Ok tt).
Proof.
  intros Hsc R. unfold add_indicator_column. rewrite Hsc.
  rewrite bind_run.
  change (setitem new (CStr (kwarg (Some low) "yes")) df)
    with (fst (setitem new (CStr low) df), @Ok unit tt).
  cbv iota beta.
  apply (columns_loop_returns mode area df new (kwarg (Some high) "no") t cols).
  - now apply setitem_deriving.
  - exact R.
Qed.

Lemma add_indicator_column_label mode area cols t new low high sc df df' i :
  add_indicator_column mode area cols t new (Some low) (Some high) sc df
  = (df', Ok tt) ->
  i < nrows df ->
  cell_at df' new i =
  CStr (if over_threshold mode area df cols t sc i then high else low).
Proof.
  intros E Hi. unfold over_threshold. destruct sc as [[|]|]; simpl kwarg; cbv iota.
  - now apply add_indicator_column_sum with (mode := mode) (area := area).
  - now apply add_indicator_column_each.
  - now apply add_indicator_column_each.
Qed.

Lemma any_exceeds_exists mode area df cols t i :
  any_exceeds mode area df cols t i = true <->
  exists col, In col cols /\ fgt (metric mode area df col i) t = true.
Proof. unfold any_exceeds. apply existsb_exists. Qed.

Lemma any_exceeds_app mode area df cols1 cols2 t i :
  any_exceeds mode area df (cols1 ++ cols2) t i
  = any_exceeds mode area df cols1 t i || any_exceeds mode area df cols2 t i.
Proof. unfold any_exceeds. apply existsb_app. Qed.

Lemma CStr_inj a b : CStr a = CStr b -> a = b.
Proof. intro E. now inversion E. Qed.

(** C5. With [sum_comparison] false (or left out), [add_indicator_column]
    returns when its input columns are numeric columns of the table, and a
    call that returns has labelled each row [high_name] when some input
    column exceeds the threshold (after the conversion to percent in ha
    mode) and [low_name] when none does; for distinct labels this is an
    equivalence; and a row that is high after a prefix of the columns is high
    after all of them.  This holds whatever the arithmetic [ops] of the
    floats is: the quotient and the product of the conversion are those
    that the call computes. *)
Theorem add_indicator_column_any_column
    mode area cols t new low high sc df i :
  kwarg sc false = false ->
  i < nrows df ->
  (inputs_ready mode area df cols new ->
   exists df',
     add_indicator_column mode area cols t new (Some low) (Some high) sc df
     = (df', Ok tt))
  /\ forall df',
       add_indicator_column mode area cols t new (Some low) (Some high) sc df
       = (df', Ok tt) ->
       cell_at df' new i
       = CStr (if any_exceeds mode area df cols t i then high else low)
       /\ (low <> high ->
           (cell_at df' new i = CStr high <->
            exists col, In col cols /\ fgt (metric mode area df col i) t = true))
       /\ ((forall col, In col cols -> fgt (metric mode area df col i) t = false) ->
           cell_at df' new i = CStr low)
       /\ (forall cols1 cols2 d1,
             cols = cols1 ++ cols2 ->
             add_indicator_column mode area cols1 t new (Some low) (Some high) sc df
             = (d1, Ok tt) ->
             cell_at d1 new i = CStr high -> cell_at df' new i = CStr high).
Proof.
  intros Hsc Hi. split; [now apply add_indicator_column_returns|].
  intros df' E.
  pose proof (add_indicator_column_label _ _ _ _ _ _ _ _ _ _ i E Hi) as L.
  unfold over_threshold in L. rewrite Hsc in L.
  split; [exact L|]. split; [|split].
  - intro Hne. rewrite L, <- any_exceeds_exists.
    destruct (any_exceeds mode area df cols t i); split; intro H;
      try reflexivity; try discriminate.
    apply CStr_inj in H. congruence.
  - intro Hnone. rewrite L.
    destruct (any_exceeds mode area df cols t i) eqn:Ex; [|reflexivity].
    apply any_exceeds_exists in Ex. destruct Ex as (col & Hin & Hgt).
    rewrite (Hnone col Hin) in Hgt. discriminate.
  - intros cols1 cols2 d1 -> E1 H1.
    pose proof (add_indicator_column_label _ _ _ _ _ _ _ _ _ _ i E1 Hi) as L1.
    unfold over_threshold in L1. rewrite Hsc in L1.
    rewrite L, any_exceeds_app. rewrite L1 in H1.
    destruct (any_exceeds mode area df cols1 t i); simpl; [reflexivity|].
    apply CStr_inj in H1. subst.
    now destruct (any_exceeds mode area df cols2 t i).
Qed.

(** ** Clamping *)

Lemma clip_finite (q : Q) :
  ((q < 0)%Q -> clip 0 100 (Fin q) = Fin 0) /\
  ((100 < q)%Q -> clip 0 100 (Fin q) = Fin 100) /\
  ((0 <= q)%Q -> (q <= 100)%Q -> clip 0 100 (Fin q) = Fin q).
Proof.
  unfold clip, flt, fgt. repeat split.
  - intro H. apply Qltb_lt in H. now rewrite H.
  - intro H. destruct (Qltb q 0) eqn:E0.
    + apply Qltb_lt in E0. exfalso.
      apply (Qlt_irrefl q). apply Qlt_trans with 0%Q; [assumption|].
      apply Qlt_trans with 100%Q; [reflexivity | assumption].
    + apply Qltb_lt in H. now rewrite H.
  - intros H0 H1. destruct (Qltb q 0) eqn:E0.
    + apply Qltb_lt in E0. exfalso. exact (Qlt_not_le _ _ E0 H0).
    + destruct (Qltb 100 q) eqn:E1; [|reflexivity].
      apply Qltb_lt in E1. exfalso. exact (Qlt_not_le _ _ E1 H1).
Qed.

Lemma clip_bounds (x : pyfloat) :
  clip 0 100 x = NaN \/
  (fle (Fin 0) (clip 0 100 x) = true /\ fle (clip 0 100 x) (Fin 100) = true).
Proof.
  destruct x as [q| | |]; [|right; split; reflexivity ..|now left].
  right. unfold clip, flt, fgt.
  destruct (Qltb q 0) eqn:E0; [split; reflexivity|].
  destruct (Qltb 100 q) eqn:E1; [split; reflexivity|].
  unfold Qltb in E0, E1. rewrite negb_false_iff in E0, E1.
  simpl. now rewrite E0, E1.
Qed.

Lemma clamp_series_at s lo hi i :
  fval (series_of (clamp (VSeries s) lo hi)) i = clip lo hi (fval s i).
Proof. reflexivity. Qed.

(** X23. With [sum_comparison] false (or left out), in ha mode the
    threshold is compared with the column value divided by the area value,
    times 100, clamped to [0, 100]; in any other mode with the raw value.
    The clamp sends values below 0 to 0, values above 100 to 100 and leaves
    the others (and NaN) as they are. *)
Theorem add_indicator_column_unit_mode
    mode area cols t new low high sc df df' i :
  kwarg sc false = false ->
  add_indicator_column mode area cols t new (Some low) (Some high) sc df
  = (df', Ok tt) ->
  i < nrows df ->
  (mode = "ha" ->
   cell_at df' new i =
   CStr (if existsb (fun col =>
                fgt (clip 0 100
                       (f_mul (f_div (as_num (cell_at df col i))
                                     (as_num (cell_at df area i)))
                              (Fin 100))) t) cols
         then high else low))
  /\ (mode <> "ha" ->
      cell_at df' new i =
      CStr (if existsb (fun col => fgt (as_num (cell_at df col i)) t) cols
            then high else low))
  /\ (forall x, clip 0 100 x = NaN \/
        (fle (Fin 0) (clip 0 100 x) = true /\ fle (clip 0 100 x) (Fin 100) = true))
  /\ (forall q, ((q < 0)%Q -> clip 0 100 (Fin q) = Fin 0) /\
                ((100 < q)%Q -> clip 0 100 (Fin q) = Fin 100) /\
                ((0 <= q)%Q -> (q <= 100)%Q -> clip 0 100 (Fin q) = Fin q)).
Proof.
  intros Hsc E Hi.
  pose proof (add_indicator_column_label _ _ _ _ _ _ _ _ _ _ i E Hi) as L.
  unfold over_threshold in L. rewrite Hsc in L.
  unfold any_exceeds, metric, percent_of_area in L.
  split; [|split; [|split; [exact clip_bounds | exact clip_finite]]].
  - intros ->. exact L.
  - intro Hm. apply String.eqb_neq in Hm. rewrite Hm in L. exact L.
Qed.

(** C10. A call that leaves out [low_name] and [high_name] is the call with
    [low_name = "yes"] and [high_name = "no"], the documented defaults the
    other way round: when it returns, a row over the threshold holds "no" and
    every other row holds "yes". *)
Theorem add_indicator_column_default_labels
    mode area cols t new sc df :
  add_indicator_column mode area cols t new None None sc df
  = add_indicator_column mode area cols t new (Some "yes") (Some "no") sc df
  /\ add_indicator_column mode area cols t new None None sc df
     = add_indicator_column mode area cols t new
         (Some documented_high_name) (Some documented_low_name) sc df
  /\ forall df' i,
       add_indicator_column mode area cols t new None None sc df = (df', Ok tt) ->
       i < nrows df ->
       cell_at df' new i =
       CStr (if over_threshold mode area df cols t sc i then "no" else "yes").
Proof.
  split; [reflexivity|]. split; [reflexivity|].
  intros df' i E Hi.
  now apply add_indicator_column_label.
Qed.

(** ** The risk classifier *)

Lemma loc_set_has_column mask col v s :
  has_column (fst (loc_set mask col v s)) col = true.
Proof.
  unfold has_column. simpl. rewrite has_column_with_column.
  rewrite String.eqb_refl. apply orb_true_r.
Qed.

Lemma loc_set_cell mask col v s c i :
  cell_at (fst (loc_set mask col v s)) c i =
  if String.eqb c col then (if mask i then v else old_cell s col i)
  else cell_at s c i.
Proof. reflexivity. Qed.

Lemma label_eqb_refl a : label_eqb a a = true.
Proof. destruct a; simpl; [apply Z.eqb_refl | apply String.eqb_refl]. Qed.

Lemma label_eqb_eq a b : label_eqb a b = true -> a = b.
Proof.
  destruct a, b; simpl; try discriminate; intro H.
  - apply Z.eqb_eq in H. now subst.
  - apply String.eqb_eq in H. now subst.
Qed.

Lemma at_set_has_column index col v s :
  has_column (fst (at_set index col v s)) col = true.
Proof. unfold at_set. apply loc_set_has_column. Qed.

Lemma at_set_cell index col v s c i :
  cell_at (fst (at_set index col v s)) c i =
  if String.eqb c col
  then (if label_eqb (row_label s i) index then v else old_cell s col i)
  else cell_at s c i.
Proof. reflexivity. Qed.

Lemma last_writer_some df lab l : forall p,
  last_writer df lab l = Some p ->
  In p l /\ label_eqb lab (row_label df p) = true.
Proof.
  induction l as [|q l IH]; intros p; simpl; [discriminate|].
  destruct (last_writer df lab l) as [r|].
  - intro E. inversion E; subst. destruct (IH p eq_refl). auto.
  - destruct (label_eqb lab (row_label df q)) eqn:L; [|discriminate].
    intro E. inversion E; subst. auto.
Qed.

Lemma last_writer_none df lab l :
  last_writer df lab l = None ->
  forall p, In p l -> label_eqb lab (row_label df p) = false.
Proof.
  induction l as [|q l IH]; simpl; [intros _ p []|].
  destruct (last_writer df lab l) as [r|]; [discriminate|].
  destruct (label_eqb lab (row_label df q)) eqn:L; [discriminate|].
  intros _ p [<-|Hp]; [exact L | now apply IH].
Qed.


(** The writer of a row is a row of the table with the same label. *)
Lemma writer_spec df i :
  i < nrows df ->
  writer df i < nrows df /\
  label_eqb (row_label df i) (row_label df (writer df i)) = true.
Proof.
  intro Hi. unfold writer.
  destruct (last_writer df (row_label df i) (seq 0 (nrows df))) as [j|] eqn:E.
  - destruct (last_writer_some _ _ _ _ E) as [Hin L].
    apply in_seq in Hin. split; [lia | exact L].
  - split; [exact Hi | apply label_eqb_refl].
Qed.



Section RiskLoop.

Variable df0 : DataFrame.
Variables n1 n2 n3 n4 : string.

Ltac run_body :=
  unfold classify_row, por, row_eq, row_get, bind, lift, ret, risk_label, eudr_risk_rule.

(** A row that is decided writes the label of the rule to its row label. *)
Lemma classify_row_ok i s s' :
  classify_row df0 n1 n2 n3 n4 i s = (s', Ok tt) ->
  s' = fst (at_set (row_label df0 i) "EUDR_risk" (risk_label df0 n1 n2 n3 n4 i) s).
Proof.
  run_body.
  destruct (has_column df0 n1); [|discriminate].
  destruct (cell_eq_str (cell_at df0 n1 i) "no"); simpl.
  { intro E. now inversion E. }
  destruct (has_column df0 n2); [|discriminate].
  destruct (cell_eq_str (cell_at df0 n2 i) "yes"); simpl.
  { intro E. now inversion E. }
  destruct (has_column df0 n3); [|discriminate].
  destruct (cell_eq_str (cell_at df0 n3 i) "yes"); simpl.
  { intro E. now inversion E. }
  destruct (has_column df0 n4); [|discriminate].
  destruct (cell_eq_str (cell_at df0 n4 i) "no"); simpl;
    intro E; now inversion E.
Qed.


(** After the loop over the rows [l], a row holds what the last row of [l]
    with its label wrote. *)
Lemma rows_loop l : forall s s',
  (forall i, row_label s i = row_label df0 i) ->
  for_each l (classify_row df0 n1 n2 n3 n4) s = (s', Ok tt) ->
  nrows s' = nrows s /\
  (forall c j, c <> "EUDR_risk" -> cell_at s' c j = cell_at s c j) /\
  (has_column s "EUDR_risk" = true \/ l <> [] -> has_column s' "EUDR_risk" = true) /\
  (forall i, old_cell s' "EUDR_risk" i =
             match last_writer df0 (row_label df0 i) l with
             | Some p => risk_label df0 n1 n2 n3 n4 p
             | None => old_cell s "EUDR_risk" i
             end) /\
  (forall i, row_label s' i = row_label s i).
Proof.
  induction l as [|i0 l IH]; intros s s' Hlab E; simpl in E.
  - unfold ret in E. inversion E; subst. repeat split; auto.
    intros [H|H]; [assumption | congruence].
  - apply bind_ok in E. destruct E as ([] & s1 & E1 & E).
    apply classify_row_ok in E1. subst s1.
    pose proof (fun H => IH _ _ H E) as IH'.
    destruct (IH' Hlab) as (Hn & Hother & Hcol & Hcell & Hrow).
    assert (Hc1 : has_column (fst (at_set (row_label df0 i0) "EUDR_risk"
                     (risk_label df0 n1 n2 n3 n4 i0) s)) "EUDR_risk" = true).
    { apply at_set_has_column. }
    repeat split.
    + rewrite Hn. reflexivity.
    + intros c j Hne. rewrite (Hother c j Hne).
      rewrite at_set_cell.
      apply String.eqb_neq in Hne. now rewrite Hne.
    + intros _. apply Hcol. now left.
    + intro i. rewrite Hcell. simpl last_writer.
      destruct (last_writer df0 (row_label df0 i) l); [reflexivity|].
      unfold old_cell at 1. rewrite Hc1.
      rewrite at_set_cell, String.eqb_refl, Hlab.
      destruct (label_eqb (row_label df0 i) (row_label df0 i0)); reflexivity.
    + intro i. rewrite Hrow. reflexivity.
Qed.


End RiskLoop.

(** What a call of [add_eudr_risk_col] that returns has done: each row holds
    the label of the rule on the indicators of its writer. *)
Lemma add_eudr_risk_col_ok n1 n2 n3 n4 df df' :
  add_eudr_risk_col n1 n2 n3 n4 df = (df', Ok tt) ->
  nrows df' = nrows df /\
  (forall c j, c <> "EUDR_risk" -> cell_at df' c j = cell_at df c j) /\
  (forall i, i < nrows df ->
     cell_at df' "EUDR_risk" i = risk_label df n1 n2 n3 n4 (writer df i)).
Proof.
  intro E. unfold add_eudr_risk_col in E. rewrite bind_run in E.
  unfold get_df in E. cbv iota beta in E.
  destruct (rows_loop df n1 n2 n3 n4 _ _ _ (fun i => eq_refl) E)
    as (Hn & Hother & Hcol & Hcell & _).
  repeat split; [assumption | assumption |].
  intros i Hi. specialize (Hcell i).
  unfold old_cell at 1 in Hcell. rewrite Hcol in Hcell.
  2:{ right. destruct (nrows df); [lia | discriminate]. }
  rewrite Hcell. unfold writer.
  destruct (last_writer df (row_label df i) (seq 0 (nrows df))) as [j|] eqn:L;
    [reflexivity|].
  pose proof (last_writer_none _ _ _ L i ltac:(apply in_seq; lia)) as N.
  rewrite label_eqb_refl in N. discriminate.
Qed.




Lemma cell_eq_str_CStr a b : cell_eq_str (CStr a) b = String.eqb a b.
Proof. reflexivity. Qed.

(** The rule answers "high" as soon as no cell is the literal it tests. *)
Lemma eudr_risk_rule_high i1 i2 i3 i4 :
  cell_eq_str i1 "no" = false -> cell_eq_str i2 "yes" = false ->
  cell_eq_str i3 "yes" = false -> cell_eq_str i4 "no" = false ->
  eudr_risk_rule i1 i2 i3 i4 = "high".
Proof. unfold eudr_risk_rule. now intros -> -> -> ->. Qed.

Lemma label_not_literal low high lit c :
  low <> lit -> high <> lit ->
  c = CStr low \/ c = CStr high -> cell_eq_str c lit = false.
Proof.
  intros Hl Hh [-> | ->]; rewrite cell_eq_str_CStr; now apply String.eqb_neq.
Qed.

(** C9, amended.  [add_eudr_risk_col] tests the indicator cells against the
    literals "no" and "yes", whatever labels the indicator columns were
    written with: on a table whose four indicator columns hold a label pair
    in which neither label is "no" or "yes", a call that returns has labelled
    every row "high". *)
Theorem add_eudr_risk_col_foreign_labels low high n1 n2 n3 n4 df df' i :
  low <> "no" -> low <> "yes" -> high <> "no" -> high <> "yes" ->
  indicator_labels df n1 n2 n3 n4 low high ->
  add_eudr_risk_col n1 n2 n3 n4 df = (df', Ok tt) ->
  i < nrows df ->
  cell_at df' "EUDR_risk" i = CStr "high".
Proof.
  intros Hln Hly Hhn Hhy Hlab E Hi.
  destruct (add_eudr_risk_col_ok _ _ _ _ _ _ E) as (_ & _ & Hcell).
  rewrite (Hcell i Hi). unfold risk_label. f_equal.
  destruct (writer_spec df i Hi) as [Hw _].
  apply eudr_risk_rule_high.
  - apply (label_not_literal low high); auto. apply Hlab; simpl; auto.
  - apply (label_not_literal low high); auto. apply Hlab; simpl; auto.
  - apply (label_not_literal low high); auto. apply Hlab; simpl; auto.
  - apply (label_not_literal low high); auto. apply Hlab; simpl; auto 6.
Qed.

(** ** The order of the lookup table *)

Lemma Qle_bool_total x y : Qle_bool x y = true \/ Qle_bool y x = true.
Proof.
  destruct (Qlt_le_dec y x) as [H|H].
  - right. apply Qle_bool_iff. now apply Qlt_le_weak.
  - left. now apply Qle_bool_iff.
Qed.

Lemma Qle_bool_trans x y z :
  Qle_bool x y = true -> Qle_bool y z = true -> Qle_bool x z = true.
Proof.
  rewrite !Qle_bool_iff. apply Qle_trans.
Qed.

Lemma key_le_total a b : key_le a b = true \/ key_le b a = true.
Proof.
  destruct a as [x| | |], b as [y| | |]; simpl; auto.
  apply Qle_bool_total.
Qed.

Lemma key_le_trans a b c :
  key_le a b = true -> key_le b c = true -> key_le a c = true.
Proof.
  destruct a as [x| | |], b as [y| | |], c as [z| | |]; simpl;
    try reflexivity; try discriminate.
  apply Qle_bool_trans.
Qed.

Lemma row_le_trans a b c : row_le a b -> row_le b c -> row_le a c.
Proof. unfold row_le. apply key_le_trans. Qed.

Section InsertionSort.

Variable before : pyfloat -> pyfloat -> bool.
Hypothesis before_le : forall a b, before a b = true -> key_le a b = true.
Hypothesis not_before_ge : forall a b, before a b = false -> key_le b a = true.

Lemma insert_row_perm x l : Permutation (insert_row before x l) (x :: l).
Proof.
  induction l as [|y l IH]; simpl; [reflexivity|].
  destruct (before (dataset_order x) (dataset_order y)); [reflexivity|].
  rewrite IH. apply perm_swap.
Qed.

Lemma insert_row_sorted x l :
  StronglySorted row_le l -> StronglySorted row_le (insert_row before x l).
Proof.
  induction l as [|y l IH]; intro S; simpl.
  - constructor; constructor.
  - apply StronglySorted_inv in S. destruct S as [S F].
    destruct (before (dataset_order x) (dataset_order y)) eqn:E.
    + constructor; [now constructor|].
      apply before_le in E. constructor; [exact E|].
      eapply Forall_impl; [|exact F]. intros z Hz.
      now apply row_le_trans with y.
    + constructor; [now apply IH|].
      apply not_before_ge in E.
      apply (Permutation_Forall (Permutation_sym (insert_row_perm x l))).
      now constructor.
Qed.

Lemma insertion_sort_sorts : sorts (insertion_sort before).
Proof.
  intro l. induction l as [|x l [IHp IHs]]; simpl.
  - split; [reflexivity | constructor].
  - split.
    + rewrite insert_row_perm. now constructor.
    + now apply insert_row_sorted.
Qed.

End InsertionSort.

Lemma stable_sort_sorts : sorts stable_sort.
Proof.
  apply insertion_sort_sorts.
  - auto.
  - intros a b H. destruct (key_le_total a b); congruence.
Qed.





(** ** The column orderer *)

Section OrdererFacts.

Variable sort_values : list lookup_row -> list lookup_row.
Hypothesis sort_values_sorts : sorts sort_values.

Lemma order_list_names lookup c :
  In c (order_list_from_lookup sort_values lookup) <->
  exists r, In r lookup /\ dataset_name r = c.
Proof.
  unfold order_list_from_lookup. rewrite in_map_iff.
  destruct (sort_values_sorts lookup) as [P _].
  split; intros (r & H1 & H2).
  - exists r. split; [|assumption]. now apply (Permutation_in _ P).
  - exists r. split; [assumption|].
    now apply (Permutation_in _ (Permutation_sym P)).
Qed.

(** C6. The result of [reorder_columns_by_lookup] has exactly the columns
    [prefix_columns_list] followed by the names of the lookup table in
    ascending order of [dataset_order]; a column of that list which the
    table has keeps its cells, one which the table lacks is NaN in every
    row, and a column of the table outside that list is not in the result:
    the columns of the result are the prefix and the lookup names. *)
Theorem reorder_columns_by_lookup_columns df lookup order_col name_col prefix :
  let sorted := sort_values lookup in
  let out := reorder_columns_by_lookup sort_values df lookup
               order_col name_col (Some prefix) in
  columns out = prefix ++ map dataset_name sorted
  /\ Permutation sorted lookup
  /\ StronglySorted row_le sorted
  /\ nrows out = nrows df
  /\ (forall c i, In c (columns out) -> In c (columns df) ->
        cell_at out c i = cell_at df c i)
  /\ (forall c i, In c (columns out) -> ~ In c (columns df) ->
        cell_at out c i = CNum NaN)
  /\ (forall c, In c (columns df) ->
        ~ In c (prefix ++ map dataset_name sorted) -> ~ In c (columns out))
  /\ (forall c, In c (columns out) <->
        In c prefix \/ exists r, In r lookup /\ dataset_name r = c).
Proof.
  intros sorted out.
  destruct (sort_values_sorts lookup) as [P S].
  split; [reflexivity|]. split; [exact P|]. split; [exact S|].
  split; [reflexivity|]. repeat split.
  - intros c i _ Hin. unfold out. simpl. unfold old_cell.
    apply has_column_In in Hin. now rewrite Hin.
  - intros c i _ Hnin. unfold out. simpl. unfold old_cell.
    destruct (has_column df c) eqn:E; [|reflexivity].
    apply has_column_In in E. contradiction.
  - intros c _ Hnin Hin. apply Hnin. exact Hin.
  - intro Hin. unfold out in Hin. simpl in Hin.
    unfold create_column_list_from_lookup in Hin.
    apply in_app_or in Hin. destruct Hin as [Hin|Hin]; [now left|].
    right. now apply order_list_names.
  - intro H. unfold out. simpl. unfold create_column_list_from_lookup.
    apply in_or_app. destruct H as [H|H]; [now left|].
    right. now apply order_list_names.
Qed.

End OrdererFacts.


End Floats.

(** * The claims at concrete tables *)

(** C1. On a one-row table and thresholds of 10, [whisp_risk] returns a
    table with three indicator columns and the risk column: there is no
    column [Indicator_4_disturbance_after_2020].  On the two-row table, whose
    second row is not low by the first three indicators, the rule reads the
    fourth indicator and the call ends in [KeyError]. *)
Theorem whisp_risk_omits_fourth_indicator :
  let out := whisp_risk_on (Fin 10) (Fin 10) (Fin 10) (Fin 10) one_plot in
  let out2 := whisp_risk_on (Fin 10) (Fin 10) (Fin 10) (Fin 10) plots in
  snd out = Ok tt
  /\ columns (fst out)
     = ["Area"; "treecover"; "cocoa"; "loss_before_2020"; "loss_after_2020";
        "Indicator_1_treecover"; "Indicator_2_commodities";
        "Indicator_3_disturbance_before_2020"; "EUDR_risk"]
  /\ has_column (fst out) "Indicator_4_disturbance_after_2020" = false
  /\ column_values (fst out) "EUDR_risk" = [CStr "low"]
  /\ snd out2 = Raise (KeyError "Indicator_4_disturbance_after_2020")
  /\ has_column (fst out2) "Indicator_4_disturbance_after_2020" = false.
Proof. vm_compute. repeat split; reflexivity. Qed.

Lemma not_in_range_150 : ~ in_range (Fin 150).
Proof.
  intros (q & E & _ & H). injection E as <-.
  apply Qle_bool_iff in H. vm_compute in H. discriminate.
Defined.

Lemma not_in_range_minus_5 : ~ in_range (Fin (-5)).
Proof.
  intros (q & E & H & _). injection E as <-.
  apply Qle_bool_iff in H. vm_compute in H. discriminate.
Defined.

Lemma in_range_10 : in_range (Fin 10).
Proof.
  exists 10%Q. repeat split; apply Qle_bool_iff; reflexivity.
Defined.

Lemma whisp_risk_range_check_witness :
  whisp_risk_on (Fin 10) (Fin 150) (Fin 10) (Fin 10) plots
  = (plots, Raise (ValueError "Value must be between 0 and 100."))
  /\ whisp_risk_on (Fin 10) (Fin 10) (Fin 10) (Fin (-5)) plots
     = (plots, Raise (ValueError "Value must be between 0 and 100."))
  /\ (forall msg,
        snd (whisp_risk_on (Fin 10) (Fin 10) (Fin 10) (Fin 10) plots)
        <> Raise (ValueError msg)).
Proof.
  split; [|split].
  - apply (whisp_risk_range_check "percent" "Area" (Fin 10) (Fin 150) (Fin 10) (Fin 10)).
    right. left. exact not_in_range_150.
  - apply (whisp_risk_range_check "percent" "Area" (Fin 10) (Fin 10) (Fin 10) (Fin (-5))).
    right. right. right. exact not_in_range_minus_5.
  - apply (whisp_risk_range_check "percent" "Area" (Fin 10) (Fin 10) (Fin 10) (Fin 10));
      exact in_range_10.
Defined.




Lemma add_indicator_column_two_labels_witness :
  let df' := fst (add_indicator_column "percent" "Area" ["cocoa"; "treecover"]
                    (Fin 10) "Indicator" (Some "no") (Some "yes") None plots) in
  1 < nrows df'
  /\ nrows df' = nrows plots
  /\ In "Indicator" (columns df')
  /\ (cell_at df' "Indicator" 1 = CStr "no" \/ cell_at df' "Indicator" 1 = CStr "yes").
Proof.
  assert (H : 1 < 2) by lia.
  split; [exact H|].
  exact (add_indicator_column_two_labels "percent" "Area" ["cocoa"; "treecover"]
           (Fin 10) "Indicator" "no" "yes" None plots 1 H).
Defined.

Lemma plots_in_ha_inputs_ready :
  inputs_ready "ha" "Area" plots_in_ha ["cocoa"; "coffee"] "Indicator".
Proof.
  split.
  - intros c [<-|[<-|[]]]; (split; [discriminate|]); (split; [simpl; auto 6|]);
      intros [|[|i]] Hi; simpl in Hi; try lia; reflexivity.
  - intros _ _. split; [discriminate|]. split; [simpl; auto|].
    intros [|[|i]] Hi; simpl in Hi; try lia; reflexivity.
Defined.

Lemma add_indicator_column_any_column_witness :
  let call t := add_indicator_column "ha" "Area" ["cocoa"; "coffee"] t
                  "Indicator" (Some "no") (Some "yes") (Some false) plots_in_ha in
  (feq (metric "ha" "Area" plots_in_ha "cocoa" 0) (Fin 50)
   /\ feq (metric "ha" "Area" plots_in_ha "coffee" 0) (Fin 0)
   /\ feq (metric "ha" "Area" plots_in_ha "cocoa" 1) (Fin 25)
   /\ feq (metric "ha" "Area" plots_in_ha "coffee" 1) (Fin 75))
  /\ column_values (fst (call (Fin 20))) "Indicator" = [CStr "yes"; CStr "yes"]
  /\ column_values (fst (call (Fin 60))) "Indicator" = [CStr "no"; CStr "yes"]
  /\ (exists df', call (Fin 60) = (df', Ok tt))
  /\ cell_at (fst (call (Fin 60))) "Indicator" 0 = CStr "no"
  /\ (cell_at (fst (call (Fin 60))) "Indicator" 1 = CStr "yes" <->
      exists col, In col ["cocoa"; "coffee"] /\
                  fgt (metric "ha" "Area" plots_in_ha col 1) (Fin 60) = true).
Proof.
  intro call.
  assert (E : call (Fin 60) = (fst (call (Fin 60)), Ok tt)) by reflexivity.
  assert (H0 : 0 < nrows plots_in_ha) by (simpl; lia).
  assert (H1 : 1 < nrows plots_in_ha) by (simpl; lia).
  assert (N : "no" <> "yes") by discriminate.
  pose proof (add_indicator_column_any_column "ha" "Area"
                ["cocoa"; "coffee"] (Fin 60) "Indicator" "no" "yes"
                (Some false) plots_in_ha 0 eq_refl H0) as [Returns Labels0].
  pose proof (add_indicator_column_any_column "ha" "Area"
                ["cocoa"; "coffee"] (Fin 60) "Indicator" "no" "yes"
                (Some false) plots_in_ha 1 eq_refl H1) as [_ Labels1].
  split; [repeat split; vm_compute; reflexivity|].
  split; [reflexivity|]. split; [reflexivity|].
  split; [exact (Returns plots_in_ha_inputs_ready)|].
  split.
  - apply (proj1 (proj2 (proj2 (Labels0 _ E)))).
    intros col [<-|[<-|[]]]; reflexivity.
  - exact (proj1 (proj2 (Labels1 _ E)) N).
Defined.

(** C8. In ha mode with [sum_comparison] set, the threshold is compared
    with the sum of the raw hectares, not with a percentage of the area: 5 ha
    of cocoa on a plot of 10 ha is 50 percent, over the threshold of 20, and
    the row is labelled low since 5 is not over 20; the same call without
    [sum_comparison] labels it high. *)
Theorem ha_sum_comparison_skips_conversion :
  let call sc := add_indicator_column "ha" "Area" ["cocoa"] (Fin 20) "Indicator"
                   (Some "no") (Some "yes") sc plot_in_ha in
  snd (call (Some true)) = Ok tt
  /\ feq (percent_of_area plot_in_ha "Area" "cocoa" 0) (Fin 50)
  /\ fgt (percent_of_area plot_in_ha "Area" "cocoa" 0) (Fin 20) = true
  /\ feq (row_sum plot_in_ha ["cocoa"] 0) (Fin 5)
  /\ cell_at (fst (call (Some true))) "Indicator" 0 = CStr "no"
  /\ snd (call None) = Ok tt
  /\ cell_at (fst (call None)) "Indicator" 0 = CStr "yes".
Proof.
  repeat split; vm_compute; reflexivity.
Qed.

Lemma add_indicator_column_unit_mode_witness :
  let call t := add_indicator_column "ha" "Area" ["cocoa"] t "Indicator"
                  (Some "no") (Some "yes") None plot_in_ha in
  call (Fin 20) = (fst (call (Fin 20)), Ok tt)
  /\ cell_at (fst (call (Fin 20))) "Indicator" 0 =
     CStr (if existsb (fun col =>
                  fgt (clip 0 100
                         (f_mul (f_div (as_num (cell_at plot_in_ha col 0))
                                       (as_num (cell_at plot_in_ha "Area" 0)))
                                (Fin 100))) (Fin 20)) ["cocoa"]
           then "yes" else "no")
  /\ cell_at (fst (call (Fin 20))) "Indicator" 0 = CStr "yes"
  /\ cell_at (fst (call (Fin 60))) "Indicator" 0 = CStr "no"
  /\ fgt (as_num (cell_at plot_in_ha "cocoa" 0)) (Fin 20) = false.
Proof.
  intro call.
  assert (E : call (Fin 20) = (fst (call (Fin 20)), Ok tt)) by reflexivity.
  assert (H : 0 < nrows plot_in_ha) by (simpl; lia).
  split; [exact E|]. split; [|repeat split; reflexivity].
  exact (proj1 (add_indicator_column_unit_mode "ha" "Area" ["cocoa"] (Fin 20)
                  "Indicator" "no" "yes" None plot_in_ha (fst (call (Fin 20))) 0
                  eq_refl E H) eq_refl).
Defined.

(** C9, as stated, fails for the label pair ("yes", "no"), which is not
    ("no", "yes"): indicator 1 holds "no" and the row is labelled "low". *)
Lemma swapped_labels_give_low :
  indicator_labels swapped_plot
    "Indicator_1_treecover" "Indicator_2_commodities"
    "Indicator_3_disturbance_before_2020" "Indicator_4_disturbance_after_2020"
    "yes" "no"
  /\ snd (classify swapped_plot) = Ok tt
  /\ cell_at (fst (classify swapped_plot)) "EUDR_risk" 0 = CStr "low"
  /\ ~ other_label_pairs_give_high.
Proof.
  assert (L : indicator_labels swapped_plot
                "Indicator_1_treecover" "Indicator_2_commodities"
                "Indicator_3_disturbance_before_2020"
                "Indicator_4_disturbance_after_2020" "yes" "no").
  { intros i name Hi Hname. simpl in Hi.
    assert (i = 0) by lia. subst i. right.
    destruct Hname as [<-|[<-|[<-|[<-|[]]]]]; reflexivity. }
  split; [exact L|]. split; [reflexivity|]. split; [reflexivity|].
  intro C.
  assert (N : ("yes", "no") <> ("no", "yes")) by discriminate.
  assert (H : 0 < nrows swapped_plot) by (simpl; lia).
  pose proof (C "yes" "no" _ _ _ _ swapped_plot _ 0 N L eq_refl H) as X.
  discriminate X.
Qed.

Lemma add_eudr_risk_col_foreign_labels_witness :
  indicator_labels relabelled_plot
    "Indicator_1_treecover" "Indicator_2_commodities"
    "Indicator_3_disturbance_before_2020" "Indicator_4_disturbance_after_2020"
    "clear" "alert"
  /\ classify relabelled_plot = (fst (classify relabelled_plot), Ok tt)
  /\ cell_at (fst (classify relabelled_plot)) "EUDR_risk" 0 = CStr "high".
Proof.
  assert (L : indicator_labels relabelled_plot
                "Indicator_1_treecover" "Indicator_2_commodities"
                "Indicator_3_disturbance_before_2020"
                "Indicator_4_disturbance_after_2020" "clear" "alert").
  { intros i name Hi Hname. simpl in Hi.
    assert (i = 0) by lia. subst i.
    destruct Hname as [<-|[<-|[<-|[<-|[]]]]]; simpl; auto. }
  assert (E : classify relabelled_plot = (fst (classify relabelled_plot), Ok tt))
    by reflexivity.
  assert (H : 0 < nrows relabelled_plot) by (simpl; lia).
  split; [exact L|]. split; [exact E|].
  refine (add_eudr_risk_col_foreign_labels "clear" "alert" _ _ _ _
            relabelled_plot _ 0 _ _ _ _ L E H); discriminate.
Defined.

Lemma add_indicator_column_default_labels_witness :
  let out := add_indicator_column "percent" "Area" ["cocoa"] (Fin 10) "Indicator"
               None None None plots in
  out = (fst out, Ok tt)
  /\ column_values (fst out) "Indicator" = [CStr "no"; CStr "yes"]
  /\ cell_at (fst out) "Indicator" 0 =
     CStr (if over_threshold "percent" "Area" plots ["cocoa"] (Fin 10) None 0
           then "no" else "yes").
Proof.
  intro out.
  assert (E : out = (fst out, Ok tt)) by reflexivity.
  assert (H : 0 < nrows plots) by (simpl; lia).
  split; [exact E|]. split; [reflexivity|].
  exact (proj2 (proj2 (add_indicator_column_default_labels "percent" "Area"
                         ["cocoa"] (Fin 10) "Indicator" None plots))
           (fst out) 0 E H).
Defined.

Lemma reorder_columns_by_lookup_columns_witness :
  let out := reorder_columns_by_lookup stable_sort plots lookup
               "dataset_order" "dataset_name" (Some ["Area"]) in
  sorts stable_sort
  /\ columns out = ["Area"; "treecover"; "cocoa"; "rubber"]
  /\ column_values out "rubber" = [CNum NaN; CNum NaN]
  /\ column_values out "cocoa" = column_values plots "cocoa"
  /\ (forall c, In c (columns plots) ->
        ~ In c (["Area"] ++ map dataset_name (stable_sort lookup)) ->
        ~ In c (columns out)).
Proof.
  intro out. split; [exact stable_sort_sorts|].
  split; [reflexivity|]. split; [reflexivity|]. split; [reflexivity|].
  apply (reorder_columns_by_lookup_columns stable_sort stable_sort_sorts
           plots lookup "dataset_order" "dataset_name" ["Area"]).
Defined.



(** * The other helpers of tidy_tables.py *)

(** ** Strings *)

Lemma take_length n : forall s,
  String.length (take n s) = Nat.min n (String.length s).
Proof.
  induction n as [|n IH]; intros [|c s]; simpl; try reflexivity.
  now rewrite IH.
Qed.

Lemma take_drop n : forall s, (take n s ++ drop n s)%string = s.
Proof.
  induction n as [|n IH]; intros [|c s]; simpl; try reflexivity.
  now rewrite IH.
Qed.

Lemma take_take n : forall m s, take n (take m s) = take (Nat.min n m) s.
Proof.
  induction n as [|n IH]; intros [|m] [|c s]; simpl; try reflexivity.
  now rewrite IH.
Qed.

Lemma take_all n : forall s, String.length s <= n -> take n s = s.
Proof.
  induction n as [|n IH]; intros [|c s] H; simpl in *; try reflexivity; try lia.
  rewrite IH; [reflexivity | lia].
Qed.

Lemma drop_length n : forall s,
  String.length (drop n s) = String.length s - n.
Proof.
  induction n as [|n IH]; intros [|c s]; simpl; try reflexivity.
  apply IH.
Qed.

Lemma last_chars_length k s :
  String.length (last_chars k s) = Nat.min k (String.length s).
Proof. unfold last_chars. rewrite drop_length. lia. Qed.

Lemma prefix_append p : forall s,
  String.prefix p s = true <-> exists b, s = (p ++ b)%string.
Proof.
  induction p as [|a p IH]; intros s.
  - split; [intros _; now exists s | intros _; now destruct s].
  - destruct s as [|c s]; simpl.
    + split; [discriminate | intros (b & E); discriminate].
    + destruct (ascii_dec a c) as [->|Hne].
      * rewrite IH. split; intros (b & E); exists b.
        -- now subst.
        -- now inversion E.
      * split; [discriminate|]. intros (b & E). inversion E. congruence.
Qed.

Lemma contains_unfold p s :
  contains p s =
  String.prefix p s
  || match s with
     | EmptyString => false
     | String _ s' => contains p s'
     end.
Proof. destruct s; reflexivity. Qed.

(** [contains p s] is Python's [p in s]: [p] occurs somewhere in [s]. *)
Lemma contains_spec p : forall s,
  contains p s = true <-> exists a b, s = (a ++ p ++ b)%string.
Proof.
  induction s as [|c s IH]; rewrite contains_unfold, orb_true_iff.
  - split.
    + intros [H|H]; [|discriminate].
      apply prefix_append in H. destruct H as (b & ->). now exists EmptyString, b.
    + intros (a & b & E). left. apply prefix_append.
      destruct a; [now exists b | discriminate].
  - rewrite IH. split.
    + intros [H|(a & b & ->)].
      * apply prefix_append in H. destruct H as (b & E).
        exists EmptyString, b. exact E.
      * now exists (String c a), b.
    + intros (a & b & E). destruct a as [|c' a].
      * left. apply prefix_append. now exists b.
      * right. inversion E. now exists a, b.
Qed.

(** ** truncate_strings_in_list *)

Lemma slice_to_nonneg k s :
  (0 <= k)%Z -> slice_to k s = take (Z.to_nat k) s.
Proof. intro H. unfold slice_to. apply Z.leb_le in H. now rewrite H. Qed.

Lemma slice_to_neg k s :
  (k < 0)%Z -> slice_to k s = take (String.length s - Z.to_nat (- k)) s.
Proof. intro H. unfold slice_to. apply Z.leb_gt in H. now rewrite H. Qed.

(** X1. With a limit of zero or more, every name is cut to its first
    [max_length] characters: the list keeps its length and order, each
    result is the start of its name and as long as the name or the limit,
    whichever is less, and a name within the limit is unchanged. *)
Theorem truncate_strings_in_list_limit input_list max_length :
  (0 <= max_length)%Z ->
  List.length (truncate_strings_in_list input_list max_length)
  = List.length input_list
  /\ Forall2
       (fun name short =>
          (exists rest, name = (short ++ rest)%string) /\
          String.length short
          = Nat.min (String.length name) (Z.to_nat max_length) /\
          (String.length name <= Z.to_nat max_length -> short = name))
       input_list (truncate_strings_in_list input_list max_length).
Proof.
  intro H. unfold truncate_strings_in_list. split; [apply length_map|].
  induction input_list as [|s l IH]; simpl; constructor; [|exact IH].
  rewrite (slice_to_nonneg _ _ H). split; [|split].
  - exists (drop (Z.to_nat max_length) s). symmetry. apply take_drop.
  - rewrite take_length. lia.
  - apply take_all.
Qed.

(** X2. Truncating twice is truncating to the smaller limit; in particular a
    second truncation to the same limit changes nothing. *)
Theorem truncate_strings_in_list_twice input_list m n :
  (0 <= m)%Z -> (0 <= n)%Z ->
  truncate_strings_in_list (truncate_strings_in_list input_list m) n
  = truncate_strings_in_list input_list (Z.min m n)
  /\ truncate_strings_in_list (truncate_strings_in_list input_list m) m
     = truncate_strings_in_list input_list m.
Proof.
  intros Hm Hn. unfold truncate_strings_in_list. rewrite !map_map. split.
  - apply map_ext. intro s.
    rewrite !slice_to_nonneg by lia. rewrite take_take.
    f_equal. lia.
  - apply map_ext. intro s.
    rewrite !slice_to_nonneg by lia. rewrite take_take. f_equal. lia.
Qed.

(** X3. A negative [max_length] is no limit: it cuts that many characters off
    the end of every name, whatever the length of what is left. *)
Theorem truncate_strings_in_list_negative input_list max_length :
  (max_length < 0)%Z ->
  Forall2
    (fun name short =>
       (exists rest, name = (short ++ rest)%string) /\
       String.length short = String.length name - Z.to_nat (- max_length))
    input_list (truncate_strings_in_list input_list max_length).
Proof.
  intro H. unfold truncate_strings_in_list.
  induction input_list as [|s l IH]; simpl; constructor; [|exact IH].
  rewrite (slice_to_neg _ _ H). split.
  - exists (drop (String.length s - Z.to_nat (- max_length)) s).
    symmetry. apply take_drop.
  - rewrite take_length. lia.
Qed.

(** ** select_years_in_range *)

Lemma filter_twice {A} (f g : A -> bool) l :
  filter f (filter g l) = filter (fun x => f x && g x) l.
Proof.
  induction l as [|x l IH]; simpl; [reflexivity|].
  destruct (g x); simpl.
  - destruct (f x); simpl; now rewrite IH.
  - now rewrite andb_false_r.
Qed.

Section YearsFacts.

Variable int_of_str : string -> option Z.

Lemma select_loop min_year max_year l : forall acc,
  fold_left
    (fun selected_strings string =>
       if 4 <=? String.length string then
         let last_four_digits := last_chars 4 string in
         match int_of_str last_four_digits with
         | Some year =>
             if in_py_range year min_year (max_year + 1)
             then selected_strings ++ [string]
             else selected_strings
         | None => selected_strings
         end
       else selected_strings)
    l acc
  = acc ++ filter (year_in_range int_of_str min_year max_year) l.
Proof.
  induction l as [|s l IH]; intro acc; cbn [fold_left filter].
  - now rewrite app_nil_r.
  - rewrite IH. cbv beta zeta.
    assert (Hs : year_in_range int_of_str min_year max_year s
                 = (4 <=? String.length s)
                   && match int_of_str (last_chars 4 s) with
                      | Some year => in_py_range year min_year (max_year + 1)
                      | None => false
                      end) by reflexivity.
    rewrite Hs.
    destruct (4 <=? String.length s); cbn [andb]; [|reflexivity].
    destruct (int_of_str (last_chars 4 s)) as [year|]; [|reflexivity].
    destruct (in_py_range year min_year (max_year + 1)); [|reflexivity].
    now rewrite <- app_assoc.
Qed.

Lemma select_years_in_range_filter l min_year max_year :
  select_years_in_range int_of_str l min_year max_year
  = filter (year_in_range int_of_str min_year max_year) l.
Proof. unfold select_years_in_range. now rewrite select_loop. Qed.

Lemma in_py_range_spec year start stop :
  in_py_range year start (stop + 1) = true <-> (start <= year <= stop)%Z.
Proof.
  unfold in_py_range. rewrite andb_true_iff, Z.leb_le, Z.ltb_lt. lia.
Qed.

Lemma year_in_range_spec min_year max_year s :
  year_in_range int_of_str min_year max_year s = true <->
  4 <= String.length s /\
  exists year, int_of_str (last_chars 4 s) = Some year /\
               (min_year <= year <= max_year)%Z.
Proof.
  unfold year_in_range. rewrite andb_true_iff, Nat.leb_le.
  destruct (int_of_str (last_chars 4 s)) as [year|].
  - rewrite in_py_range_spec. split.
    + intros [H1 H2]. split; [assumption|]. now exists year.
    + intros [H1 (y & E & H2)]. inversion E. subst. now split.
  - split; [intros [_ H]; discriminate | intros [_ (y & E & _)]; discriminate].
Qed.

(** X4. The strings selected are those of the list, in the order and the number
    they have there, that have four characters or more and whose last four
    characters [int] reads as a year from [min_year] to [max_year], both
    included. *)
Theorem select_years_in_range_selected l min_year max_year :
  select_years_in_range int_of_str l min_year max_year
  = filter (year_in_range int_of_str min_year max_year) l
  /\ forall s,
       In s (select_years_in_range int_of_str l min_year max_year) <->
       In s l /\ 4 <= String.length s /\
       exists year, int_of_str (last_chars 4 s) = Some year /\
                    (min_year <= year <= max_year)%Z.
Proof.
  split; [apply select_years_in_range_filter|].
  intro s. rewrite select_years_in_range_filter, filter_In, year_in_range_spec.
  reflexivity.
Qed.

(** X5. Selecting from a selection keeps the years that are in both ranges: a
    second selection with the same range changes nothing, a range with
    [max_year] below [min_year] selects nothing, and a wider range selects
    at least as much. *)
Theorem select_years_in_range_twice l a b a' b' :
  select_years_in_range int_of_str
    (select_years_in_range int_of_str l a b) a' b'
  = select_years_in_range int_of_str l (Z.max a a') (Z.min b b')
  /\ select_years_in_range int_of_str
       (select_years_in_range int_of_str l a b) a b
     = select_years_in_range int_of_str l a b
  /\ ((b < a)%Z -> select_years_in_range int_of_str l a b = [])
  /\ ((a' <= a)%Z -> (b <= b')%Z ->
      incl (select_years_in_range int_of_str l a b)
           (select_years_in_range int_of_str l a' b')).
Proof.
  rewrite !select_years_in_range_filter.
  assert (Both : forall x y x' y' s,
    year_in_range int_of_str x' y' s && year_in_range int_of_str x y s
    = year_in_range int_of_str (Z.max x x') (Z.min y y') s).
  { intros x y x' y' s. apply eq_true_iff_eq.
    rewrite andb_true_iff, !year_in_range_spec. split.
    - intros [[H4 (y1 & E1 & R1)] [_ (y2 & E2 & R2)]].
      rewrite E1 in E2. inversion E2. subst y2.
      split; [assumption|]. exists y1. split; [assumption | lia].
    - intros [H4 (y1 & E1 & R1)].
      split; (split; [assumption|]); exists y1; (split; [assumption | lia]). }
  split; [|split; [|split]].
  - rewrite filter_twice. apply filter_ext. intro s. apply Both.
  - rewrite filter_twice. apply filter_ext. intro s. rewrite Both.
    now rewrite Z.max_id, Z.min_id.
  - intro Hlt. induction l as [|s l IH]; simpl; [reflexivity|].
    destruct (year_in_range int_of_str a b s) eqn:E; [|exact IH].
    apply year_in_range_spec in E. destruct E as [_ (y & _ & R)]. lia.
  - intros Ha Hb s. rewrite !filter_In, !year_in_range_spec.
    intros [Hin [H4 (y & E & R)]]. split; [assumption|].
    split; [assumption|]. exists y. split; [assumption | lia].
Qed.

Hypothesis int_reads_years : reads_years int_of_str.

(** X6. For an [int] that reads four decimal digits as their number and refuses
    letters: a name of the list that ends in four digits is selected exactly
    when the year they write is from [min_year] to [max_year]; a name
    shorter than four characters, or with a letter among its last four, is
    never selected. *)
Theorem select_years_in_range_by_year l min_year max_year s :
  In s l ->
  (String.length s < 4 ->
   ~ In s (select_years_in_range int_of_str l min_year max_year))
  /\ (4 <= String.length s -> all_digits (last_chars 4 s) = true ->
      (In s (select_years_in_range int_of_str l min_year max_year) <->
       (min_year <= decimal_value (last_chars 4 s) <= max_year)%Z))
  /\ (has_letter (last_chars 4 s) = true ->
      ~ In s (select_years_in_range int_of_str l min_year max_year)).
Proof.
  intro Hin. destruct int_reads_years as [Digits Letters].
  rewrite select_years_in_range_filter.
  split; [|split].
  - intros Hshort H. apply filter_In in H. destruct H as [_ H].
    apply year_in_range_spec in H. lia.
  - intros H4 Hd. rewrite filter_In, year_in_range_spec.
    rewrite (Digits (last_chars 4 s)); [|rewrite last_chars_length; lia | exact Hd].
    split.
    + intros [_ [_ (y & E & R)]]. inversion E. now subst.
    + intro R. split; [assumption|]. split; [assumption|].
      now exists (decimal_value (last_chars 4 s)).
  - intros Hl H. apply filter_In in H. destruct H as [_ H].
    apply year_in_range_spec in H. destruct H as [_ (y & E & _)].
    rewrite (Letters _ Hl) in E. discriminate.
Qed.

End YearsFacts.

Lemma letter_not_digit c : is_letter c = true -> is_digit c = false.
Proof.
  unfold is_letter, is_digit.
  rewrite orb_true_iff, !andb_true_iff, !Nat.leb_le, andb_false_iff, !Nat.leb_gt.
  lia.
Qed.

Lemma has_letter_not_digits s : has_letter s = true -> all_digits s = false.
Proof.
  induction s as [|c s IH]; simpl; [discriminate|].
  rewrite orb_true_iff. intros [H|H].
  - now rewrite (letter_not_digit c H).
  - rewrite (IH H). apply andb_false_r.
Qed.

Lemma digits_int_reads_years : reads_years digits_int.
Proof.
  split.
  - intros s Hlen Hd. unfold digits_int. destruct s; [discriminate|].
    now rewrite Hd.
  - intros s Hl. unfold digits_int. destruct s; [reflexivity|].
    now rewrite (has_letter_not_digits _ Hl).
Qed.

(** ** create_wildcard_column_list *)

Lemma comprehension_filter_like df patterns :
  (forall p, In p patterns -> p <> "") ->
  comprehension (filter_like df) patterns = Ok (map (labels_like df) patterns).
Proof.
  induction patterns as [|p ps IH]; intro H; simpl; [reflexivity|].
  unfold filter_like at 1.
  destruct (String.eqb_spec p "") as [E|_].
  - exfalso. apply (H p); [now left | exact E].
  - rewrite IH; [reflexivity|]. intros q Hq. apply H. now right.
Qed.

Lemma comprehension_filter_like_raises df patterns :
  In "" patterns -> comprehension (filter_like df) patterns = Raise TypeError.
Proof.
  induction patterns as [|p ps IH]; intro H; simpl; [contradiction|].
  unfold filter_like at 1. destruct (String.eqb_spec p "") as [E|Hne].
  - reflexivity.
  - destruct H as [H|H]; [congruence|]. now rewrite (IH H).
Qed.

Lemma count_occ_filter_NoDup (f : string -> bool) l c :
  NoDup l -> In c l ->
  count_occ string_dec (filter f l) c = if f c then 1 else 0.
Proof.
  intros N Hin.
  destruct (f c) eqn:Fc.
  - assert (Hf : In c (filter f l)) by (apply filter_In; now split).
    assert (Nf : NoDup (filter f l)) by now apply NoDup_filter.
    apply (NoDup_count_occ string_dec) with (x := c) in Nf.
    apply (count_occ_In string_dec) in Hf. lia.
  - apply count_occ_not_In. intro Hf. apply filter_In in Hf.
    destruct Hf as [_ Hf]. congruence.
Qed.

Lemma count_occ_labels df c patterns :
  NoDup (columns df) -> In c (columns df) ->
  count_occ string_dec (List.concat (map (labels_like df) patterns)) c
  = List.length (filter (fun p => contains p c) patterns).
Proof.
  intros N Hin. induction patterns as [|p ps IH]; simpl; [reflexivity|].
  rewrite count_occ_app, IH. unfold labels_like.
  rewrite (count_occ_filter_NoDup (contains p) _ c N Hin).
  destruct (contains p c); reflexivity.
Qed.

(** X7. With patterns that are not empty, [create_wildcard_column_list] returns
    the columns of the table that contain the first pattern, then those that
    contain the second, and so on: a label is in the list exactly when it is
    a column of the table and some pattern occurs in it, and a column is
    listed once for each pattern that occurs in it. *)
Theorem create_wildcard_column_list_matches df patterns :
  (forall p, In p patterns -> p <> "") ->
  exists out,
    create_wildcard_column_list df patterns = Ok out
    /\ out = List.concat (map (labels_like df) patterns)
    /\ (forall c, In c out <->
          In c (columns df) /\
          exists p, In p patterns /\ exists a b, c = (a ++ p ++ b)%string)
    /\ (NoDup (columns df) ->
        forall c, In c (columns df) ->
          count_occ string_dec out c
          = List.length (filter (fun p => contains p c) patterns)).
Proof.
  intro H. exists (List.concat (map (labels_like df) patterns)).
  split; [|split; [reflexivity|split]].
  - unfold create_wildcard_column_list.
    now rewrite (comprehension_filter_like df patterns H).
  - intro c. rewrite in_concat. split.
    + intros (l & Hl & Hc). apply in_map_iff in Hl.
      destruct Hl as (p & <- & Hp). unfold labels_like in Hc.
      apply filter_In in Hc. destruct Hc as [Hin Hc].
      split; [assumption|]. exists p. split; [assumption|].
      now apply contains_spec.
    + intros [Hin (p & Hp & Hab)]. exists (labels_like df p). split.
      * apply in_map_iff. now exists p.
      * unfold labels_like. apply filter_In. split; [assumption|].
        now apply contains_spec.
  - intros N c Hin. now apply count_occ_labels.
Qed.

(** X8. An empty pattern among the patterns makes the call raise [TypeError];
    and the list for two lists of patterns, one after the other, is the list
    for the first followed by the list for the second. *)
Theorem create_wildcard_column_list_patterns df patterns1 patterns2 :
  (In "" patterns1 ->
   create_wildcard_column_list df patterns1 = Raise TypeError)
  /\ (forall out1 out2,
        create_wildcard_column_list df patterns1 = Ok out1 ->
        create_wildcard_column_list df patterns2 = Ok out2 ->
        create_wildcard_column_list df (patterns1 ++ patterns2)
        = Ok (out1 ++ out2)).
Proof.
  split.
  - intro H. unfold create_wildcard_column_list.
    now rewrite (comprehension_filter_like_raises df patterns1 H).
  - intros out1 out2 E1 E2.
    assert (Ok_nonempty : forall ps out,
      create_wildcard_column_list df ps = Ok out ->
      forall p, In p ps -> p <> "").
    { intros ps out E p Hp ->. unfold create_wildcard_column_list in E.
      rewrite (comprehension_filter_like_raises df ps Hp) in E. discriminate. }
    pose proof (Ok_nonempty _ _ E1) as N1.
    pose proof (Ok_nonempty _ _ E2) as N2.
    unfold create_wildcard_column_list in *.
    rewrite (comprehension_filter_like df _ N1) in E1.
    rewrite (comprehension_filter_like df _ N2) in E2.
    inversion E1. inversion E2.
    rewrite comprehension_filter_like.
    + now rewrite map_app, concat_app.
    + intros p Hp. apply in_app_or in Hp. destruct Hp; auto.
Qed.

(** * More on the pipeline *)

Section Pipeline.

Context {ops : float_ops}.

(** ** What a call leaves alone *)

Lemma untouched_refl touched df : untouched touched df df.
Proof. split; [reflexivity|]. intros c _. now split. Qed.

Lemma loc_set_untouched touched df mask col v :
  In col touched ->
  preserves (untouched touched df) (loc_set mask col v).
Proof.
  intros Hin d [Hn Hc]. split; [exact Hn|].
  intros c Hc'. assert (Hne : c <> col) by (intros ->; contradiction).
  destruct (Hc c Hc') as [H1 H2]. split.
  - unfold has_column at 1. simpl. rewrite has_column_with_column.
    apply String.eqb_neq in Hne. now rewrite Hne, orb_false_r.
  - intro i. rewrite loc_set_cell. apply String.eqb_neq in Hne.
    now rewrite Hne.
Qed.

Lemma setitem_untouched touched df col v :
  In col touched ->
  preserves (untouched touched df) (setitem col v).
Proof.
  intros Hin d [Hn Hc]. split; [exact Hn|].
  intros c Hc'. assert (Hne : c <> col) by (intros ->; contradiction).
  destruct (Hc c Hc') as [H1 H2]. split.
  - unfold has_column at 1. simpl. rewrite has_column_with_column.
    apply String.eqb_neq in Hne. now rewrite Hne, orb_false_r.
  - intro i. simpl. apply String.eqb_neq in Hne. now rewrite Hne.
Qed.

Lemma add_indicator_column_untouched touched df0 mode area cols t new low high sc :
  In new touched ->
  preserves (untouched touched df0)
    (add_indicator_column mode area cols t new low high sc).
Proof.
  intro Hin. apply preserves_add_indicator_column.
  - now apply setitem_untouched.
  - intro mask. now apply loc_set_untouched.
Qed.

(** X9. Whether it returns or raises, [add_indicator_column] changes no column
    but [new_column_name], and [whisp_risk] none but the first three
    indicator columns and [EUDR_risk]: the table keeps its rows, its other
    columns and their cells.  The fourth indicator column is among the
    columns left as they are. *)
Theorem whisp_risk_leaves_metrics
    mode area t1 t2 t3 t4 c1 c2 c3 c4 n1 n2 n3 n4 low high df :
  (forall cols t new lo hi sc,
     untouched [new] df
       (fst (add_indicator_column mode area cols t new lo hi sc df)))
  /\ untouched [n1; n2; n3; "EUDR_risk"] df
       (fst (whisp_risk mode area t1 t2 t3 t4 c1 c2 c3 c4
               n1 n2 n3 n4 low high df)).
Proof.
  split.
  - intros cols t new lo hi sc.
    apply add_indicator_column_untouched; [now left | apply untouched_refl].
  - apply (preserves_bind (untouched [n1; n2; n3; "EUDR_risk"] df));
      [| |apply untouched_refl].
    + apply preserves_for_each. intros t _. apply preserves_lift.
    + intros _. apply preserves_bind.
      * unfold add_indicators. apply preserves_for_each.
        intros [[ic t] n] Hin. apply add_indicator_column_untouched.
        apply zip3_names in Hin. simpl in Hin. simpl. tauto.
      * intros _. apply preserves_add_eudr_risk_col.
        intros mask v. apply loc_set_untouched. simpl. tauto.
Qed.

(** ** The columns of the result *)

Lemma with_column_idem cols col :
  with_column (with_column cols col) col = with_column cols col.
Proof.
  unfold with_column at 1.
  destruct (existsb (String.eqb col) (with_column cols col)) eqn:E; [reflexivity|].
  exfalso. assert (H : In col (with_column cols col)) by (apply with_column_In; now right).
  assert (X : existsb (String.eqb col) (with_column cols col) = true).
  { apply existsb_exists. exists col. split; [exact H | apply String.eqb_refl]. }
  congruence.
Qed.

Lemma with_column_fresh cols col :
  ~ In col cols -> with_column cols col = cols ++ [col].
Proof.
  intro H. unfold with_column.
  destruct (existsb (String.eqb col) cols) eqn:E; [|reflexivity].
  apply existsb_exists in E. destruct E as (x & Hx & E).
  apply String.eqb_eq in E. subst. contradiction.
Qed.

Lemma add_indicator_column_columns mode area cols t new low high sc df :
  columns (fst (add_indicator_column mode area cols t new low high sc df))
  = with_column (columns df) new.
Proof.
  unfold add_indicator_column. rewrite bind_run.
  change (setitem new (CStr (kwarg low "yes")) df)
    with (fst (setitem new (CStr (kwarg low "yes")) df), @Ok unit tt).
  cbv iota beta.
  set (rest := if kwarg sc false then _ else _).
  assert (R : preserves (fun d => columns d = with_column (columns df) new) rest).
  { assert (L : forall mask v,
              preserves (fun d => columns d = with_column (columns df) new)
                        (loc_set mask new v)).
    { intros mask v d H. simpl. rewrite H. apply with_column_idem. }
    unfold rest. destruct (kwarg sc false).
    - apply preserves_bind; [apply preserves_get_df|]. intros d.
      apply preserves_bind; [apply preserves_getitem_list|]. intros ss.
      apply preserves_bind; [apply preserves_lift|]. intros s.
      apply preserves_bind; [apply preserves_lift|]. intros mask. apply L.
    - apply preserves_for_each. intros col _.
      apply preserves_bind; [apply preserves_val_to_check|]. intros v.
      apply preserves_bind; [apply preserves_lift|]. intros mask. apply L. }
  apply R. reflexivity.
Qed.

Lemma rows_loop_columns df0 n1 n2 n3 n4 l : forall s s',
  for_each l (classify_row df0 n1 n2 n3 n4) s = (s', Ok tt) ->
  columns s' = match l with
               | [] => columns s
               | _ => with_column (columns s) "EUDR_risk"
               end.
Proof.
  induction l as [|i l IH]; intros s s' E; simpl in E.
  - unfold ret in E. now inversion E.
  - apply bind_ok in E. destruct E as ([] & s1 & E1 & E).
    apply classify_row_ok in E1. subst s1.
    rewrite (IH _ _ E). destruct l; [reflexivity|].
    cbn [at_set loc_set fst columns]. apply with_column_idem.
Qed.

Lemma add_eudr_risk_col_columns n1 n2 n3 n4 df df' :
  add_eudr_risk_col n1 n2 n3 n4 df = (df', Ok tt) ->
  columns df' = if nrows df =? 0 then columns df
                else with_column (columns df) "EUDR_risk".
Proof.
  intro E. unfold add_eudr_risk_col in E. rewrite bind_run in E.
  unfold get_df in E. cbv iota beta in E.
  rewrite (rows_loop_columns _ _ _ _ _ _ _ _ E).
  destruct (nrows df); reflexivity.
Qed.

Lemma whisp_risk_ok_inv
    mode area t1 t2 t3 t4 c1 c2 c3 c4 n1 n2 n3 n4 low high df out :
  whisp_risk mode area t1 t2 t3 t4 c1 c2 c3 c4 n1 n2 n3 n4 low high df
  = (out, Ok tt) ->
  exists s,
    add_indicators mode area [c1; c2; c3; c4] [t1; t2; t3; t4] [n1; n2; n3]
      low high df = (s, Ok tt)
    /\ add_eudr_risk_col n1 n2 n3 n4 s = (out, Ok tt)
    /\ nrows s = nrows df
    /\ columns s = with_indicators (columns df) n1 n2 n3.
Proof.
  intro E. unfold whisp_risk in E.
  apply bind_ok in E. destruct E as ([] & s0 & E0 & E).
  assert (s0 = df).
  { pose proof (preserves_for_each (fun d => d = df) [t1; t2; t3; t4]
                  (fun threshold => lift (check_range threshold))) as P.
    specialize (P (fun t _ => preserves_lift _ _) df eq_refl).
    rewrite E0 in P. exact P. }
  subst s0.
  apply bind_ok in E. destruct E as ([] & s & Es & E).
  exists s. split; [exact Es|]. split; [exact E|].
  unfold add_indicators in Es. simpl in Es.
  apply bind_ok in Es. destruct Es as ([] & s1 & E1 & Es).
  apply bind_ok in Es. destruct Es as ([] & s2 & E2 & Es).
  apply bind_ok in Es. destruct Es as ([] & s3 & E3 & Es).
  unfold ret in Es. inversion Es. subst s3.
  pose proof (add_indicator_column_columns mode area c1 t1 n1
                (Some low) (Some high) None df) as C1.
  pose proof (add_indicator_column_columns mode area c2 t2 n2
                (Some low) (Some high) None s1) as C2.
  pose proof (add_indicator_column_columns mode area c3 t3 n3
                (Some low) (Some high) None s2) as C3.
  pose proof (add_indicator_column_nrows mode area c1 t1 n1
                (Some low) (Some high) None df) as N1.
  pose proof (add_indicator_column_nrows mode area c2 t2 n2
                (Some low) (Some high) None s1) as N2.
  pose proof (add_indicator_column_nrows mode area c3 t3 n3
                (Some low) (Some high) None s2) as N3.
  rewrite E1 in C1, N1. rewrite E2 in C2, N2. rewrite E3 in C3, N3.
  simpl in *. split; [congruence|].
  unfold with_indicators. congruence.
Qed.

(** X10. A call of [whisp_risk] that returns has kept the columns of the table in
    their places and put each indicator name that is new after them, then
    [EUDR_risk] if it is new; but for a table without rows it adds no
    [EUDR_risk] column at all.  With three fresh indicator names the columns
    are those of the table, the three indicators and [EUDR_risk]. *)
Theorem whisp_risk_column_order
    mode area t1 t2 t3 t4 c1 c2 c3 c4 n1 n2 n3 n4 low high df out :
  whisp_risk mode area t1 t2 t3 t4 c1 c2 c3 c4 n1 n2 n3 n4 low high df
  = (out, Ok tt) ->
  columns out
  = (if nrows df =? 0 then with_indicators (columns df) n1 n2 n3
     else with_column (with_indicators (columns df) n1 n2 n3) "EUDR_risk")
  /\ (NoDup [n1; n2; n3; "EUDR_risk"] ->
      (forall n, In n [n1; n2; n3; "EUDR_risk"] -> ~ In n (columns df)) ->
      columns out
      = columns df ++ [n1; n2; n3]
        ++ (if nrows df =? 0 then [] else ["EUDR_risk"])).
Proof.
  intro E. apply whisp_risk_ok_inv in E.
  destruct E as (s & _ & E & Hn & Hc).
  apply add_eudr_risk_col_columns in E. rewrite Hn, Hc in E.
  split; [exact E|].
  intros N F. rewrite E. unfold with_indicators.
  inversion N as [|? ? A1 N1]. inversion N1 as [|? ? A2 N2].
  inversion N2 as [|? ? A3 N3]. subst. simpl in A1, A2, A3.
  assert (W1 : with_column (columns df) n1 = columns df ++ [n1]).
  { apply with_column_fresh. apply F. simpl. tauto. }
  assert (W2 : with_column (columns df ++ [n1]) n2 = (columns df ++ [n1]) ++ [n2]).
  { apply with_column_fresh. rewrite in_app_iff. simpl.
    intros [H|[H|[]]]; [apply (F n2); simpl; tauto | subst; tauto]. }
  assert (W3 : with_column ((columns df ++ [n1]) ++ [n2]) n3
               = ((columns df ++ [n1]) ++ [n2]) ++ [n3]).
  { apply with_column_fresh. rewrite !in_app_iff. simpl.
    intros [[H|[H|[]]]|[H|[]]];
      [apply (F n3); simpl; tauto | subst; tauto | subst; tauto]. }
  rewrite W1, W2, W3.
  destruct (nrows df =? 0).
  - rewrite <- !app_assoc. reflexivity.
  - rewrite with_column_fresh.
    + rewrite <- !app_assoc. reflexivity.
    + rewrite !in_app_iff. simpl.
      intros [[[H|[H|[]]]|[H|[]]]|[H|[]]];
        [apply (F "EUDR_risk"); simpl; tauto
        | subst; tauto | subst; tauto | subst; tauto].
Qed.

(** ** Tables without rows *)

Lemma all_numeric_empty s : slen s = 0 -> all_numeric s = true.
Proof. unfold all_numeric. now intros ->. Qed.

Lemma has_column_loc_set mask col v s c :
  has_column s c = true -> has_column (fst (loc_set mask col v s)) c = true.
Proof.
  intro H. unfold has_column. simpl. rewrite has_column_with_column.
  now rewrite H.
Qed.

Lemma check_column_empty mode area new high t col s :
  nrows s = 0 ->
  has_column s col = true ->
  (mode = "ha" -> has_column s area = true) ->
  exists mask,
    check_column mode area new high t col s
    = (fst (loc_set mask new (CStr high) s), Ok tt).
Proof.
  intros Hn Hc Ha. unfold check_column, val_to_check.
  destruct (String.eqb mode "ha") eqn:Em.
  - apply String.eqb_eq in Em. specialize (Ha Em).
    unfold bind, getitem, lift, ret, series_div, series_gt.
    rewrite Hc, Ha.
    rewrite !all_numeric_empty by exact Hn. cbn [andb].
    rewrite all_numeric_of_fseries. eexists. reflexivity.
  - unfold bind, getitem, lift, series_gt. rewrite Hc.
    rewrite all_numeric_empty by exact Hn. eexists. reflexivity.
Qed.

Lemma columns_loop_empty mode area new high t cols : forall s,
  nrows s = 0 ->
  (forall c, In c cols -> has_column s c = true) ->
  (mode = "ha" -> cols <> [] -> has_column s area = true) ->
  exists s',
    for_each cols (check_column mode area new high t) s = (s', Ok tt).
Proof.
  induction cols as [|col cols IH]; intros s Hn Hc Ha; simpl.
  - now exists s.
  - destruct (check_column_empty mode area new high t col s Hn) as (mask & E).
    + apply Hc. now left.
    + intro Hm. apply Ha; [assumption | discriminate].
    + unfold bind at 1. rewrite E. apply IH.
      * exact Hn.
      * intros c Hin. apply has_column_loc_set. apply Hc. now right.
      * intros Hm _. apply has_column_loc_set. apply Ha; [assumption | discriminate].
Qed.

Lemma add_indicator_column_empty mode area cols t new low high s :
  nrows s = 0 ->
  (forall c, In c cols -> has_column s c = true) ->
  (mode = "ha" -> cols <> [] -> has_column s area = true) ->
  exists d,
    add_indicator_column mode area cols t new (Some low) (Some high) None s
    = (d, Ok tt)
    /\ nrows d = 0
    /\ forall c, has_column s c = true -> has_column d c = true.
Proof.
  intros Hn Hc Ha.
  assert (Keep : forall c, has_column s c = true ->
                   has_column (fst (setitem new (CStr low) s)) c = true).
  { intros c H. unfold has_column. simpl. rewrite has_column_with_column.
    now rewrite H. }
  destruct (columns_loop_empty mode area new high t cols
              (fst (setitem new (CStr low) s))) as [d E].
  - exact Hn.
  - intros c Hin. apply Keep. now apply Hc.
  - intros Hm Hne. apply Keep. now apply Ha.
  - exists d. split; [exact E|].
    pose proof (add_indicator_column_nrows mode area cols t new
                  (Some low) (Some high) None s) as N.
    pose proof (add_indicator_column_columns mode area cols t new
                  (Some low) (Some high) None s) as C.
    assert (E' : add_indicator_column mode area cols t new
                   (Some low) (Some high) None s = (d, Ok tt)) by exact E.
    rewrite E' in N, C. simpl in N, C. split; [congruence|].
    intros c H. apply has_column_In. rewrite C. apply with_column_In.
    left. now apply has_column_In.
Qed.

(** X11. On a table without rows, [add_eudr_risk_col] returns the table as it is,
    whatever its columns: no [EUDR_risk] column is made and no indicator
    column is looked for.  [whisp_risk], with thresholds in range and the
    input columns of the first three indicators in the table, returns the
    table with the three indicator columns and no [EUDR_risk] column of its
    making; the input columns of the fourth indicator are not looked for. *)
Theorem whisp_risk_empty_table
    mode area t1 t2 t3 t4 c1 c2 c3 c4 n1 n2 n3 n4 low high df :
  nrows df = 0 ->
  add_eudr_risk_col n1 n2 n3 n4 df = (df, Ok tt)
  /\ (in_range t1 -> in_range t2 -> in_range t3 -> in_range t4 ->
      (forall c, In c (c1 ++ c2 ++ c3) -> In c (columns df)) ->
      (mode = "ha" -> In area (columns df)) ->
      exists out,
        whisp_risk mode area t1 t2 t3 t4 c1 c2 c3 c4 n1 n2 n3 n4 low high df
        = (out, Ok tt)
        /\ nrows out = 0
        /\ columns out = with_indicators (columns df) n1 n2 n3).
Proof.
  intro Hn. split.
  - unfold add_eudr_risk_col. rewrite bind_run. unfold get_df.
    cbv iota beta. now rewrite Hn.
  - intros R1 R2 R3 R4 Hc Ha.
    apply check_range_in_range in R1, R2, R3, R4.
    assert (Has : forall c, In c (c1 ++ c2 ++ c3) -> has_column df c = true).
    { intros c H. apply has_column_In. now apply Hc. }
    assert (HasA : mode = "ha" -> has_column df area = true).
    { intro H. apply has_column_In. now apply Ha. }
    destruct (add_indicator_column_empty mode area c1 t1 n1 low high df Hn)
      as (s1 & E1 & N1 & K1).
    { intros c H. apply Has. apply in_or_app. now left. }
    { intros H _. now apply HasA. }
    destruct (add_indicator_column_empty mode area c2 t2 n2 low high s1 N1)
      as (s2 & E2 & N2 & K2).
    { intros c H. apply K1, Has. apply in_or_app. right. apply in_or_app. now left. }
    { intros H _. now apply K1, HasA. }
    destruct (add_indicator_column_empty mode area c3 t3 n3 low high s2 N2)
      as (s3 & E3 & N3 & K3).
    { intros c H. apply K2, K1, Has. apply in_or_app. right. apply in_or_app. now right. }
    { intros H _. now apply K2, K1, HasA. }
    assert (E : whisp_risk mode area t1 t2 t3 t4 c1 c2 c3 c4
                  n1 n2 n3 n4 low high df = (s3, Ok tt)).
    { unfold whisp_risk. rewrite bind_run. simpl for_each.
      unfold bind at 1, lift at 1. rewrite R1.
      unfold bind at 1, lift at 1. rewrite R2.
      unfold bind at 1, lift at 1. rewrite R3.
      unfold bind at 1, lift at 1. rewrite R4.
      unfold ret at 1. cbv iota beta.
      rewrite bind_run. unfold add_indicators. simpl for_each.
      unfold bind at 1. rewrite E1.
      unfold bind at 1. rewrite E2.
      unfold bind at 1. rewrite E3.
      unfold ret at 1. cbv iota beta.
      unfold add_eudr_risk_col. rewrite bind_run. unfold get_df.
      cbv iota beta. now rewrite N3. }
    exists s3. split; [exact E|]. split; [exact N3|].
    destruct (whisp_risk_ok_inv _ _ _ _ _ _ _ _ _ _ _ _ _ _ _ _ _ _ E)
      as (s & _ & Er & Ns & Cs).
    apply add_eudr_risk_col_columns in Er.
    rewrite Ns, Hn in Er. simpl in Er. congruence.
Qed.

(** ** What the risk classifier writes and raises *)

Lemma eudr_risk_rule_values i1 i2 i3 i4 :
  risk_value (CStr (eudr_risk_rule i1 i2 i3 i4)).
Proof.
  unfold risk_value, eudr_risk_rule.
  destruct (cell_eq_str i1 "no" || cell_eq_str i2 "yes" || cell_eq_str i3 "yes");
    [now left|].
  destruct (cell_eq_str i4 "no"); [right; now left | right; now right].
Qed.

(** X12. A call of [add_eudr_risk_col] or of [whisp_risk] that returns has put
    one of "low", "more_info_needed" and "high" in [EUDR_risk] in every
    row. *)
Theorem eudr_risk_three_values :
  (forall n1 n2 n3 n4 df out i,
     add_eudr_risk_col n1 n2 n3 n4 df = (out, Ok tt) ->
     i < nrows out -> risk_value (cell_at out "EUDR_risk" i))
  /\ (forall mode area t1 t2 t3 t4 c1 c2 c3 c4 n1 n2 n3 n4 low high df out i,
        whisp_risk mode area t1 t2 t3 t4 c1 c2 c3 c4 n1 n2 n3 n4 low high df
        = (out, Ok tt) ->
        i < nrows out -> risk_value (cell_at out "EUDR_risk" i)).
Proof.
  assert (A : forall n1 n2 n3 n4 df out i,
     add_eudr_risk_col n1 n2 n3 n4 df = (out, Ok tt) ->
     i < nrows out -> risk_value (cell_at out "EUDR_risk" i)).
  { intros n1 n2 n3 n4 df out i E Hi.
    destruct (add_eudr_risk_col_ok _ _ _ _ _ _ E) as (Hn & _ & Hcell).
    rewrite Hn in Hi. rewrite (Hcell i Hi). apply eudr_risk_rule_values. }
  split; [exact A|].
  intros mode area t1 t2 t3 t4 c1 c2 c3 c4 n1 n2 n3 n4 low high df out i E Hi.
  apply whisp_risk_ok_inv in E. destruct E as (s & _ & E & _).
  exact (A _ _ _ _ _ _ _ E Hi).
Qed.

Lemma classify_row_raises df0 n1 n2 n3 n4 i s s' e :
  classify_row df0 n1 n2 n3 n4 i s = (s', Raise e) ->
  s' = s /\
  exists n, In n [n1; n2; n3; n4] /\ e = KeyError n /\ has_column df0 n = false.
Proof.
  unfold classify_row, por, row_eq, row_get, bind, lift, ret, at_set, loc_set.
  destruct (has_column df0 n1) eqn:H1.
  2:{ intro E. inversion E. split; [reflexivity|]. exists n1. simpl. auto. }
  destruct (cell_eq_str (cell_at df0 n1 i) "no"); [discriminate|].
  destruct (has_column df0 n2) eqn:H2.
  2:{ intro E. inversion E. split; [reflexivity|]. exists n2. simpl. auto. }
  destruct (cell_eq_str (cell_at df0 n2 i) "yes"); [discriminate|].
  destruct (has_column df0 n3) eqn:H3.
  2:{ intro E. inversion E. split; [reflexivity|]. exists n3. simpl. auto. }
  destruct (cell_eq_str (cell_at df0 n3 i) "yes"); [discriminate|].
  destruct (has_column df0 n4) eqn:H4.
  2:{ intro E. inversion E. split; [reflexivity|]. exists n4. simpl. auto 6. }
  destruct (cell_eq_str (cell_at df0 n4 i) "no"); discriminate.
Qed.

Lemma rows_loop_raises df0 n1 n2 n3 n4 l : forall s s' e,
  for_each l (classify_row df0 n1 n2 n3 n4) s = (s', Raise e) ->
  exists n, In n [n1; n2; n3; n4] /\ e = KeyError n /\ has_column df0 n = false.
Proof.
  induction l as [|i l IH]; intros s s' e E; simpl in E.
  - discriminate.
  - unfold bind in E.
    destruct (classify_row df0 n1 n2 n3 n4 i s) as [s1 [[]|e1]] eqn:E1.
    + exact (IH _ _ _ E).
    + inversion E. subst. apply classify_row_raises in E1. tauto.
Qed.

(** X13. The only exception of [add_eudr_risk_col] is the [KeyError] of an
    indicator name that is not a column of the table; when the table has a
    row and lacks the first indicator column, that exception is raised with
    the table as it was. *)
Theorem add_eudr_risk_col_key_error n1 n2 n3 n4 df :
  (forall s e,
     add_eudr_risk_col n1 n2 n3 n4 df = (s, Raise e) ->
     exists n, In n [n1; n2; n3; n4] /\ e = KeyError n /\ ~ In n (columns df))
  /\ (0 < nrows df -> ~ In n1 (columns df) ->
      add_eudr_risk_col n1 n2 n3 n4 df = (df, Raise (KeyError n1))).
Proof.
  split.
  - intros s e E. unfold add_eudr_risk_col in E. rewrite bind_run in E.
    unfold get_df in E. cbv iota beta in E.
    apply rows_loop_raises in E. destruct E as (n & Hin & -> & Hc).
    exists n. split; [assumption|]. split; [reflexivity|].
    intro H. apply has_column_In in H. congruence.
  - intros Hrows Hmiss. unfold add_eudr_risk_col. rewrite bind_run.
    unfold get_df. cbv iota beta.
    destruct (nrows df) as [|n] eqn:En; [lia|].
    cbn [seq for_each]. unfold bind at 1.
    unfold classify_row, por, row_eq, row_get, bind, lift.
    destruct (has_column df n1) eqn:H1; [|reflexivity].
    apply has_column_In in H1. contradiction.
Qed.

(** ** A missing input column *)

Lemma for_each_app {A} (l1 l2 : list A) (body : A -> M unit) s :
  for_each (l1 ++ l2) body s
  = match for_each l1 body s with
    | (s1, Ok _) => for_each l2 body s1
    | (s1, Raise e) => (s1, Raise e)
    end.
Proof.
  revert s. induction l1 as [|x l1 IH]; intro s; simpl.
  - reflexivity.
  - unfold bind. destruct (body x s) as [s1 [[]|e]]; [apply IH | reflexivity].
Qed.

Lemma check_column_missing mode area df new high t col s :
  deriving df new s -> col <> new -> ~ In col (columns df) ->
  check_column mode area new high t col s = (s, Raise (KeyError col)).
Proof.
  intros (_ & _ & Hcols & _) Hne Hmiss.
  assert (Hc : has_column s col = false).
  { rewrite (Hcols col Hne). destruct (has_column df col) eqn:E; [|reflexivity].
    apply has_column_In in E. contradiction. }
  unfold check_column, val_to_check.
  destruct (String.eqb mode "ha"); unfold bind, getitem; now rewrite Hc.
Qed.

(** X14. When the columns are compared one by one and an input column is not in
    the table, while those before it are numeric columns, the call raises
    the [KeyError] of that column and leaves the table changed: the new
    column is there, with the labels that the columns before the missing one
    give. *)
Theorem add_indicator_column_missing_column
    mode area before col rest t new low high sc df :
  kwarg sc false = false ->
  inputs_ready mode area df before new ->
  ~ In col (columns df) -> col <> new ->
  exists s,
    add_indicator_column mode area (before ++ col :: rest) t new
      (Some low) (Some high) sc df
    = (s, Raise (KeyError col))
    /\ In new (columns s)
    /\ forall i, i < nrows df ->
         cell_at s new i
         = CStr (if any_exceeds mode area df before t i then high else low).
Proof.
  intros Hsc Ready Hmiss Hne.
  pose proof (setitem_deriving df new (CStr low) eq_refl) as D0.
  destruct (columns_loop_returns mode area df new high t before _ D0 Ready)
    as [s E].
  destruct (columns_loop mode area df new high t before _ _ D0 E) as [D L].
  exists s. split; [|split].
  - unfold add_indicator_column. rewrite Hsc. rewrite bind_run.
    change (setitem new (CStr (kwarg (Some low) "yes")) df)
      with (fst (setitem new (CStr low) df), @Ok unit tt).
    cbv iota beta.
    change (for_each (before ++ col :: rest)
              (check_column mode area new high t)
              (fst (setitem new (CStr low) df)) = (s, Raise (KeyError col))).
    rewrite for_each_app, E. simpl for_each. unfold bind at 1.
    now rewrite (check_column_missing mode area df new high t col s D Hne Hmiss).
  - destruct D as (_ & Hc & _). now apply has_column_In.
  - intros i Hi. rewrite (L i Hi). simpl. rewrite String.eqb_refl.
    now destruct (any_exceeds mode area df before t i).
Qed.

(** ** Thresholds and areas in ha mode *)

Lemma clip_not_above x t :
  fle (Fin 100) t = true -> fgt (clip 0 100 x) t = false.
Proof.
  intro Ht.
  destruct t as [tq| | |]; simpl in Ht; try discriminate.
  - apply Qle_bool_iff in Ht.
    assert (Top : forall r, (r <= 100)%Q -> Qltb tq r = false).
    { intros r Hr. destruct (Qltb tq r) eqn:E; [|reflexivity].
      apply Qltb_lt in E. exfalso.
      apply (Qlt_irrefl tq). apply Qlt_le_trans with r; [assumption|].
      now apply Qle_trans with 100%Q. }
    destruct x as [q| | |]; unfold clip, flt, fgt; try reflexivity.
    + destruct (Qltb q 0) eqn:E0.
      * apply Top. discriminate.
      * destruct (Qltb 100 q) eqn:E1.
        -- apply Top. apply Qle_refl.
        -- apply Top. unfold Qltb in E1. apply negb_false_iff in E1.
           now apply Qle_bool_iff.
    + apply Top. apply Qle_refl.
    + apply Top. discriminate.
  - destruct (clip_bounds x) as [->|[_ H]]; [reflexivity|].
    destruct (clip 0 100 x); simpl in *; try reflexivity; discriminate.
Qed.

(** X15. In ha mode, with the columns compared one by one, no row is labelled
    high for a threshold of 100 or more: the clamp caps every percentage at
    100 and the comparison is strict. *)
Theorem add_indicator_column_ha_threshold_100
    area cols t new low high sc df df' i :
  kwarg sc false = false ->
  fle (Fin 100) t = true ->
  add_indicator_column "ha" area cols t new (Some low) (Some high) sc df
  = (df', Ok tt) ->
  i < nrows df ->
  cell_at df' new i = CStr low.
Proof.
  intros Hsc Ht E Hi.
  rewrite (add_indicator_column_label _ _ _ _ _ _ _ _ _ _ i E Hi).
  unfold over_threshold. rewrite Hsc.
  assert (N : any_exceeds "ha" area df cols t i = false).
  { unfold any_exceeds. destruct (existsb _ cols) eqn:X; [|reflexivity].
    apply existsb_exists in X. destruct X as (col & _ & G).
    unfold metric, percent_of_area in G. simpl in G.
    rewrite (clip_not_above _ t Ht) in G. discriminate. }
  now rewrite N.
Qed.

Lemma percent_of_zero_area df area col i v a :
  ieee_division ops ->
  cell_at df col i = CNum (Fin v) ->
  cell_at df area i = CNum (Fin a) ->
  (a == 0)%Q ->
  ((0 < v)%Q -> percent_of_area df area col i = Fin 100) /\
  ((v == 0)%Q -> percent_of_area df area col i = NaN).
Proof.
  intros (Dpos & Dzero & Minf & Mnan) Hv Ha Hz.
  unfold percent_of_area. rewrite Hv, Ha. cbn [as_num].
  split; intro H.
  - now rewrite (Dpos v a Hz H), Minf.
  - now rewrite (Dzero v a Hz H), Mnan.
Qed.

(** X16. In ha mode, with the columns compared one by one, a row whose area is 0
    is labelled high, for any threshold under 100, as soon as one input
    column is positive there (the quotient is infinite and clamps to 100),
    and low when every input column is 0 there (0 / 0 is NaN, which exceeds
    nothing). *)
Theorem add_indicator_column_zero_area
    area cols t new low high sc df df' i a :
  ieee_division ops ->
  kwarg sc false = false ->
  add_indicator_column "ha" area cols t new (Some low) (Some high) sc df
  = (df', Ok tt) ->
  i < nrows df ->
  cell_at df area i = CNum (Fin a) -> (a == 0)%Q ->
  (forall col v,
     In col cols -> cell_at df col i = CNum (Fin v) -> (0 < v)%Q ->
     fgt (Fin 100) t = true ->
     cell_at df' new i = CStr high)
  /\ ((forall col, In col cols ->
         exists v, cell_at df col i = CNum (Fin v) /\ (v == 0)%Q) ->
      cell_at df' new i = CStr low).
Proof.
  intros Hops Hsc E Hi Ha Hz.
  pose proof (add_indicator_column_label _ _ _ _ _ _ _ _ _ _ i E Hi) as L.
  unfold over_threshold in L. rewrite Hsc in L. split.
  - intros col v Hin Hv Hpos Ht. rewrite L.
    assert (X : any_exceeds "ha" area df cols t i = true).
    { apply any_exceeds_exists. exists col. split; [assumption|].
      unfold metric. simpl String.eqb. cbv iota.
      now rewrite (proj1 (percent_of_zero_area df area col i v a Hops Hv Ha Hz) Hpos). }
    now rewrite X.
  - intros Hall. rewrite L.
    assert (X : any_exceeds "ha" area df cols t i = false).
    { unfold any_exceeds. destruct (existsb _ cols) eqn:X; [|reflexivity].
      apply existsb_exists in X. destruct X as (col & Hin & G).
      destruct (Hall col Hin) as (v & Hv & Hv0).
      unfold metric in G. simpl String.eqb in G. cbv iota in G.
      rewrite (proj2 (percent_of_zero_area df area col i v a Hops Hv Ha Hz) Hv0) in G.
      discriminate. }
    now rewrite X.
Qed.

(** ** The fourth indicator *)

(** X17. [whisp_risk] makes no use of the fourth threshold beyond its range check
    and none of the input columns of the fourth indicator: with any other
    fourth threshold in range and any other fourth list of input columns it
    ends with the same table and the same outcome. *)
Theorem whisp_risk_ignores_fourth_inputs
    mode area t1 t2 t3 t4 t4' c1 c2 c3 c4 c4' n1 n2 n3 n4 low high df :
  in_range t4 -> in_range t4' ->
  whisp_risk mode area t1 t2 t3 t4 c1 c2 c3 c4 n1 n2 n3 n4 low high df
  = whisp_risk mode area t1 t2 t3 t4' c1 c2 c3 c4' n1 n2 n3 n4 low high df.
Proof.
  intros R R'. apply check_range_in_range in R, R'.
  unfold whisp_risk. rewrite !bind_run. simpl for_each.
  unfold bind at 1 5, lift at 1 5.
  destruct (check_range t1) as [[]|e]; [|reflexivity].
  unfold bind at 1 4, lift at 1 4.
  destruct (check_range t2) as [[]|e]; [|reflexivity].
  unfold bind at 1 3, lift at 1 3.
  destruct (check_range t3) as [[]|e]; [|reflexivity].
  unfold bind at 1 2, lift at 1 2.
  rewrite R, R'. reflexivity.
Qed.

(** ** Running the deriver again *)

Lemma any_exceeds_same mode area df d cols t i :
  (forall c, In c cols -> cell_at d c i = cell_at df c i) ->
  (mode = "ha" -> cols <> [] -> cell_at d area i = cell_at df area i) ->
  any_exceeds mode area d cols t i = any_exceeds mode area df cols t i.
Proof.
  intros Hc Ha. unfold any_exceeds.
  destruct cols as [|c0 cols0] eqn:Ec; [reflexivity|]. rewrite <- Ec in *.
  assert (Hne : cols <> []) by (rewrite Ec; discriminate).
  clear Ec. induction cols as [|c cols IH]; [reflexivity|].
  simpl. f_equal.
  - unfold metric, percent_of_area.
    rewrite (Hc c (or_introl eq_refl)).
    destruct (String.eqb mode "ha") eqn:Em; [|reflexivity].
    apply String.eqb_eq in Em. now rewrite (Ha Em Hne).
  - destruct cols as [|c' cols']; [reflexivity|].
    apply IH; [|intros; apply Ha; [assumption|exact Hne]|discriminate].
    intros x Hx. apply Hc. now right.
Qed.

(** X18. With the columns compared one by one and numeric input columns, deriving
    the indicator a second time from the result of the first, under the same
    or another column name, returns too and gives every row the label it had:
    the deriver reads the input columns only, and leaves them as they are. *)
Theorem add_indicator_column_again
    mode area cols t new new2 low high sc df :
  kwarg sc false = false ->
  inputs_ready mode area df cols new ->
  inputs_ready mode area df cols new2 ->
  exists d1 d2,
    add_indicator_column mode area cols t new (Some low) (Some high) sc df
    = (d1, Ok tt)
    /\ add_indicator_column mode area cols t new2 (Some low) (Some high) sc d1
       = (d2, Ok tt)
    /\ forall i, i < nrows df -> cell_at d2 new2 i = cell_at d1 new i.
Proof.
  intros Hsc R1 R2.
  destruct (add_indicator_column_returns mode area cols t new low high sc df Hsc R1)
    as [d1 E1].
  pose proof (add_indicator_column_untouched [new] df mode area cols t new
                (Some low) (Some high) sc (or_introl eq_refl) df
                (untouched_refl _ _)) as U.
  rewrite E1 in U. simpl in U. destruct U as [Hn U].
  assert (Same : forall c, c <> new ->
            has_column d1 c = has_column df c /\
            forall i, cell_at d1 c i = cell_at df c i).
  { intros c Hc. apply U. simpl. intros [H|[]]. congruence. }
  assert (R : inputs_ready mode area d1 cols new2).
  { destruct R1 as [A1 B1], R2 as [A2 B2]. split.
    - intros c Hin. destruct (A1 c Hin) as [Hne1 _].
      destruct (A2 c Hin) as [Hne2 [Hcol Hnum]].
      destruct (Same c Hne1) as [Hh Hcell].
      split; [assumption|]. split.
      + apply has_column_In. rewrite Hh. now apply has_column_In.
      + intros i Hi. rewrite Hcell. apply Hnum. lia.
    - intros Hm Hne. destruct (B1 Hm Hne) as [Hne1 _].
      destruct (B2 Hm Hne) as [Hne2 [Hcol Hnum]].
      destruct (Same area Hne1) as [Hh Hcell].
      split; [assumption|]. split.
      + apply has_column_In. rewrite Hh. now apply has_column_In.
      + intros i Hi. rewrite Hcell. apply Hnum. lia. }
  destruct (add_indicator_column_returns mode area cols t new2 low high sc d1 Hsc R)
    as [d2 E2].
  exists d1, d2. split; [exact E1|]. split; [exact E2|].
  intros i Hi.
  rewrite (add_indicator_column_label _ _ _ _ _ _ _ _ _ _ i E1 Hi).
  rewrite (add_indicator_column_label _ _ _ _ _ _ _ _ _ _ i E2) by lia.
  unfold over_threshold. rewrite Hsc.
  rewrite (any_exceeds_same mode area df d1 cols t i); [reflexivity| |].
  - intros c Hin. destruct R1 as [A1 _]. destruct (A1 c Hin) as [Hne1 _].
    apply Same. exact Hne1.
  - intros Hm Hne. destruct R1 as [_ B1]. destruct (B1 Hm Hne) as [Hne1 _].
    apply Same. exact Hne1.
Qed.

(** ** One column: the sum and the column *)

Lemma fgt_Fin_eq x y t : (x == y)%Q -> fgt (Fin x) t = fgt (Fin y) t.
Proof.
  intro E. destruct t as [tq| | |]; simpl; try reflexivity.
  apply eq_true_iff_eq. rewrite !Qltb_lt. now rewrite E.
Qed.

Lemma fgt_feq a b t : feq a b -> fgt a t = fgt b t.
Proof.
  destruct a, b; simpl; intro E; try contradiction; try reflexivity.
  now apply fgt_Fin_eq.
Qed.

Lemma single_sum df col t i :
  ieee_sum ops ->
  fgt (Fin 0) t = false ->
  fgt (row_sum df [col] i) t = fgt (as_num (cell_at df col i)) t.
Proof.
  intros Hops H0. unfold row_sum. simpl. unfold sum_cell.
  destruct (as_num (cell_at df col i)) as [q| | |] eqn:C.
  - apply fgt_feq, Hops.
  - apply fgt_feq, Hops.
  - apply fgt_feq, Hops.
  - rewrite H0. now destruct t.
Qed.

(** X19. In percent mode and for a threshold that is not negative, one input
    column gives the same labels with [sum_comparison] true and false.  For a
    negative threshold they part on a missing value: the sum counts NaN as
    0, over the threshold, and the column alone never exceeds it. *)
Theorem add_indicator_column_one_column
    mode area col t new low high df d_sum d_each i :
  ieee_sum ops ->
  mode <> "ha" ->
  add_indicator_column mode area [col] t new (Some low) (Some high) (Some true) df
  = (d_sum, Ok tt) ->
  add_indicator_column mode area [col] t new (Some low) (Some high) (Some false) df
  = (d_each, Ok tt) ->
  i < nrows df ->
  (fgt (Fin 0) t = false -> cell_at d_sum new i = cell_at d_each new i)
  /\ (fgt (Fin 0) t = true -> cell_at df col i = CNum NaN ->
      cell_at d_sum new i = CStr high /\ cell_at d_each new i = CStr low).
Proof.
  intros Hops Hm Es Ee Hi.
  pose proof (add_indicator_column_label _ _ _ _ _ _ _ _ _ _ i Es Hi) as Ls.
  pose proof (add_indicator_column_label _ _ _ _ _ _ _ _ _ _ i Ee Hi) as Le.
  unfold over_threshold in Ls, Le. simpl kwarg in Ls, Le. cbv iota in Ls, Le.
  unfold any_exceeds, metric in Le. simpl existsb in Le.
  apply String.eqb_neq in Hm. rewrite Hm, orb_false_r in Le.
  split.
  - intro H0. rewrite Ls, Le. now rewrite single_sum.
  - intros H0 Hnan. rewrite Ls, Le.
    assert (S : row_sum df [col] i = Fin 0).
    { unfold row_sum. cbn [fold_left]. unfold sum_cell. now rewrite Hnan. }
    rewrite S, H0, Hnan. split; [reflexivity|].
    cbn [as_num]. now destruct t.
Qed.

(** ** clamp on a float *)

Lemma Qltb_false_le x y : Qltb x y = false -> (y <= x)%Q.
Proof.
  unfold Qltb. rewrite negb_false_iff. apply Qle_bool_iff.
Qed.

(** X20. For bounds in order, [clamp] on a float gives a float within the
    bounds, equal to the value when the value is within them, and the lower
    bound for NaN; on a Series it leaves NaN where it is. *)
Theorem clamp_float min_val max_val x :
  (min_val <= max_val)%Q ->
  (exists r,
     clamp (VFloat x) min_val max_val = VFloat (Fin r)
     /\ (min_val <= r)%Q /\ (r <= max_val)%Q
     /\ (forall q, x = Fin q -> (min_val <= q)%Q -> (q <= max_val)%Q ->
           (r == q)%Q))
  /\ clamp (VFloat NaN) min_val max_val = VFloat (Fin min_val)
  /\ (forall s i, fval s i = NaN ->
        fval (series_of (clamp (VSeries s) min_val max_val)) i = NaN).
Proof.
  intro Hb. split; [|split].
  - destruct x as [q| | |]; unfold clamp, py_min, py_max, flt; simpl fgt.
    + destruct (Qltb max_val q) eqn:Ehi; simpl fgt.
      * apply Qltb_lt in Ehi.
        destruct (Qltb min_val max_val) eqn:E.
        -- exists max_val. repeat split; try assumption; try apply Qle_refl.
           intros q' E' _ H. inversion E'. subst.
           exfalso. exact (Qlt_not_le _ _ Ehi H).
        -- exists min_val. apply Qltb_false_le in E.
           repeat split; try assumption; try apply Qle_refl.
           intros q' E' _ H. inversion E'. subst.
           exfalso. exact (Qlt_not_le _ _ Ehi H).
      * apply Qltb_false_le in Ehi.
        destruct (Qltb min_val q) eqn:E.
        -- exists q. apply Qltb_lt in E.
           repeat split; try assumption; [now apply Qlt_le_weak|].
           intros q' E' _ _. inversion E'. reflexivity.
        -- exists min_val. apply Qltb_false_le in E.
           repeat split; try assumption; try apply Qle_refl.
           intros q' E' H _. inversion E'. subst.
           now apply Qle_antisym.
    + destruct (Qltb min_val max_val) eqn:E.
      * exists max_val. repeat split; try assumption; try apply Qle_refl.
        intros q E'. discriminate.
      * exists min_val. repeat split; try assumption; try apply Qle_refl.
        intros q E'. discriminate.
    + exists min_val. repeat split; try assumption; try apply Qle_refl.
      intros q E'. discriminate.
    + exists min_val. repeat split; try assumption; try apply Qle_refl.
      intros q E'. discriminate.
  - reflexivity.
  - intros s i H. simpl. now rewrite H.
Qed.

(** ** No input column *)

(** X21. With an empty list of input columns [add_indicator_column] returns on
    every table: every row is labelled low when the columns are compared one
    by one; with [sum_comparison] the sum of no column is 0, and every row is
    labelled high for a negative threshold and low otherwise. *)
Theorem add_indicator_column_no_input_columns
    mode area t new low high sc df :
  exists d,
    add_indicator_column mode area [] t new (Some low) (Some high) sc df
    = (d, Ok tt)
    /\ nrows d = nrows df
    /\ forall i,
         cell_at d new i
         = CStr (if kwarg sc false && fgt (Fin 0) t then high else low).
Proof.
  unfold add_indicator_column. rewrite bind_run.
  change (setitem new (CStr (kwarg (Some low) "yes")) df)
    with (fst (setitem new (CStr low) df), @Ok unit tt).
  cbv iota beta. destruct (kwarg sc false); simpl kwarg.
  - unfold bind, get_df, getitem_list, ret, lift, sum_axis1, series_gt.
    cbn [forallb]. rewrite all_numeric_of_fseries.
    eexists. split; [reflexivity|]. split; [reflexivity|].
    intro i. unfold loc_set. cbn [fst cell_at]. rewrite String.eqb_refl.
    cbn [of_fseries sval fval fold_left as_num andb].
    destruct (fgt (Fin 0) t); [reflexivity|].
    unfold old_cell, has_column, setitem. cbn [fst columns cell_at].
    rewrite has_column_with_column, !String.eqb_refl, orb_true_r.
    reflexivity.
  - eexists. split; [reflexivity|]. split; [reflexivity|].
    intro i. cbn [fst setitem cell_at andb]. now rewrite String.eqb_refl.
Qed.

(** ** A table without the fourth indicator column *)

Lemma classify_row_low df0 n1 n2 n3 n4 i s s' :
  classify_row df0 n1 n2 n3 n4 i s = (s', Ok tt) ->
  has_column df0 n4 = false ->
  risk_label df0 n1 n2 n3 n4 i = CStr "low".
Proof.
  intros E H4. revert E.
  unfold classify_row, por, row_eq, row_get, bind, lift, ret, risk_label,
    eudr_risk_rule.
  destruct (has_column df0 n1); [|discriminate].
  destruct (cell_eq_str (cell_at df0 n1 i) "no"); simpl; [reflexivity|].
  destruct (has_column df0 n2); [|discriminate].
  destruct (cell_eq_str (cell_at df0 n2 i) "yes"); simpl; [reflexivity|].
  destruct (has_column df0 n3); [|discriminate].
  destruct (cell_eq_str (cell_at df0 n3 i) "yes"); simpl; [reflexivity|].
  rewrite H4. discriminate.
Qed.

Lemma rows_loop_each_row df0 n1 n2 n3 n4 l : forall s s',
  for_each l (classify_row df0 n1 n2 n3 n4) s = (s', Ok tt) ->
  forall i, In i l ->
    exists si si', classify_row df0 n1 n2 n3 n4 i si = (si', Ok tt).
Proof.
  induction l as [|i0 l IH]; intros s s' E i Hin; simpl in E.
  - contradiction.
  - apply bind_ok in E. destruct E as ([] & s1 & E1 & E).
    destruct Hin as [<-|Hin].
    + now exists s, s1.
    + exact (IH _ _ E i Hin).
Qed.

Lemma with_column_not_In cols col c :
  ~ In c cols -> c <> col -> ~ In c (with_column cols col).
Proof. intros H1 H2 H. apply with_column_In in H. tauto. Qed.

(** X22. When the table has no column named [ind_4_name] (and the name is not one
    of the first three indicator names), a call of [whisp_risk] that returns
    has labelled every row "low": a row that the first three indicators do
    not make low needs the fourth indicator, which [whisp_risk] never
    derives, and ends the call in [KeyError]. *)
Theorem whisp_risk_without_fourth_column
    mode area t1 t2 t3 t4 c1 c2 c3 c4 n1 n2 n3 n4 low high df out i :
  ~ In n4 (columns df) -> n4 <> n1 -> n4 <> n2 -> n4 <> n3 ->
  whisp_risk mode area t1 t2 t3 t4 c1 c2 c3 c4 n1 n2 n3 n4 low high df
  = (out, Ok tt) ->
  i < nrows out ->
  cell_at out "EUDR_risk" i = CStr "low".
Proof.
  intros Hmiss N1 N2 N3 E Hi.
  apply whisp_risk_ok_inv in E. destruct E as (s & _ & E & Hn & Hc).
  assert (H4 : has_column s n4 = false).
  { destruct (has_column s n4) eqn:X; [|reflexivity].
    apply has_column_In in X. rewrite Hc in X. unfold with_indicators in X.
    exfalso. revert X. repeat apply with_column_not_In; assumption. }
  destruct (add_eudr_risk_col_ok _ _ _ _ _ _ E) as (Hno & _ & Hcell).
  rewrite Hno in Hi. rewrite (Hcell i Hi).
  destruct (writer_spec s i Hi) as [Hw _].
  unfold add_eudr_risk_col in E. rewrite bind_run in E.
  unfold get_df in E. cbv iota beta in E.
  destruct (rows_loop_each_row _ _ _ _ _ _ _ _ E (writer s i)) as (si & si' & Ei).
  { apply in_seq. lia. }
  exact (classify_row_low _ _ _ _ _ _ _ _ Ei H4).
Qed.

End Pipeline.

(** * The helpers and the pipeline at concrete inputs *)

Lemma truncate_strings_in_list_limit_witness :
  truncate_strings_in_list indicator_names 10
  = ["Indicator_"; "Indicator_"; "EUDR_risk"]
  /\ List.length (truncate_strings_in_list indicator_names 10) = 3.
Proof.
  split; [reflexivity|].
  assert (H : (0 <= 10)%Z) by lia.
  exact (eq_trans
           (proj1 (truncate_strings_in_list_limit indicator_names 10 H))
           eq_refl).
Defined.

Lemma truncate_strings_in_list_twice_witness :
  truncate_strings_in_list (truncate_strings_in_list indicator_names 12) 10
  = truncate_strings_in_list indicator_names (Z.min 12 10).
Proof.
  assert (H1 : (0 <= 12)%Z) by lia.
  assert (H2 : (0 <= 10)%Z) by lia.
  exact (proj1 (truncate_strings_in_list_twice indicator_names 12 10 H1 H2)).
Defined.

Lemma truncate_strings_in_list_negative_witness :
  truncate_strings_in_list indicator_names (-2)
  = ["Indicator_1_treecov"; "Indicator_2_commoditi"; "EUDR_ri"]
  /\ Forall2
       (fun name short =>
          (exists rest, name = (short ++ rest)%string) /\
          String.length short = String.length name - Z.to_nat (- (-2)))
       indicator_names (truncate_strings_in_list indicator_names (-2)).
Proof.
  split; [reflexivity|].
  assert (H : (-2 < 0)%Z) by lia.
  exact (truncate_strings_in_list_negative indicator_names (-2) H).
Defined.

Lemma select_years_in_range_twice_witness :
  select_years_in_range digits_int dataset_names 2002 2010
  = ["loss_2005"; "x2010"]
  /\ select_years_in_range digits_int dataset_names 2010 2002 = []
  /\ incl (select_years_in_range digits_int dataset_names 2002 2010)
          (select_years_in_range digits_int dataset_names 2001 2010).
Proof.
  split; [reflexivity|].
  destruct (select_years_in_range_twice digits_int dataset_names
              2002 2010 2001 2010) as (_ & _ & _ & Wider).
  destruct (select_years_in_range_twice digits_int dataset_names
              2010 2002 2010 2002) as (_ & _ & Empty & _).
  split.
  - apply Empty. lia.
  - apply Wider; lia.
Defined.

Lemma select_years_in_range_by_year_witness :
  reads_years digits_int
  /\ (In "loss_2005" (select_years_in_range digits_int dataset_names 2002 2010)
      <-> (2002 <= decimal_value (last_chars 4 "loss_2005") <= 2010)%Z)
  /\ ~ In "abc" (select_years_in_range digits_int dataset_names 2002 2010)
  /\ ~ In "treecover" (select_years_in_range digits_int dataset_names 2002 2010).
Proof.
  split; [exact digits_int_reads_years|].
  assert (I1 : In "loss_2005" dataset_names) by (simpl; auto).
  assert (I2 : In "abc" dataset_names) by (simpl; auto).
  assert (I3 : In "treecover" dataset_names) by (simpl; auto 6).
  split; [|split].
  - apply (proj1 (proj2 (select_years_in_range_by_year digits_int
                           digits_int_reads_years dataset_names 2002 2010
                           "loss_2005" I1))).
    + simpl. lia.
    + reflexivity.
  - apply (proj1 (select_years_in_range_by_year digits_int
                    digits_int_reads_years dataset_names 2002 2010 "abc" I2)).
    simpl. lia.
  - apply (proj2 (proj2 (select_years_in_range_by_year digits_int
                           digits_int_reads_years dataset_names 2002 2010
                           "treecover" I3))).
    reflexivity.
Defined.

Lemma create_wildcard_column_list_matches_witness :
  create_wildcard_column_list plots ["loss"; "o"]
  = Ok ["loss_before_2020"; "loss_after_2020"; "treecover"; "cocoa";
        "loss_before_2020"; "loss_after_2020"]
  /\ exists out,
       create_wildcard_column_list plots ["loss"; "o"] = Ok out
       /\ out = List.concat (map (labels_like plots) ["loss"; "o"])
       /\ (forall c, In c out <->
             In c (columns plots) /\
             exists p, In p ["loss"; "o"] /\
                       exists a b, c = (a ++ p ++ b)%string)
       /\ (NoDup (columns plots) ->
           forall c, In c (columns plots) ->
             count_occ string_dec out c
             = List.length (filter (fun p => contains p c) ["loss"; "o"])).
Proof.
  split; [reflexivity|].
  apply (create_wildcard_column_list_matches plots ["loss"; "o"]).
  intros p [<-|[<-|[]]]; discriminate.
Defined.

Lemma create_wildcard_column_list_patterns_witness :
  create_wildcard_column_list plots ["loss"; ""] = Raise TypeError
  /\ create_wildcard_column_list plots (["loss"] ++ ["cocoa"])
     = Ok (["loss_before_2020"; "loss_after_2020"] ++ ["cocoa"]).
Proof.
  split.
  - apply (create_wildcard_column_list_patterns plots ["loss"; ""] []).
    simpl. auto.
  - apply (create_wildcard_column_list_patterns plots ["loss"] ["cocoa"]);
      reflexivity.
Defined.

Lemma whisp_risk_column_order_witness :
  let out := whisp_risk_on (Fin 10) (Fin 10) (Fin 10) (Fin 10) one_plot in
  out = (fst out, Ok tt)
  /\ columns (fst out)
     = columns one_plot
       ++ ["Indicator_1_treecover"; "Indicator_2_commodities";
           "Indicator_3_disturbance_before_2020"]
       ++ (if nrows one_plot =? 0 then [] else ["EUDR_risk"]).
Proof.
  intro out.
  assert (E : out = (fst out, Ok tt)) by reflexivity.
  split; [exact E|].
  apply (proj2 (whisp_risk_column_order _ _ _ _ _ _ _ _ _ _ _ _ _ _ _ _ _ _ E)).
  - repeat constructor; simpl; intuition discriminate.
  - intros n Hn Hc. simpl in Hn, Hc.
    destruct Hn as [<-|[<-|[<-|[<-|[]]]]];
      repeat (destruct Hc as [Hc|Hc]; [discriminate Hc|]); exact Hc.
Defined.

Lemma whisp_risk_empty_table_witness :
  nrows no_plots = 0
  /\ classify no_plots = (no_plots, Ok tt)
  /\ exists out,
       whisp_risk_on (Fin 10) (Fin 10) (Fin 10) (Fin 10) no_plots = (out, Ok tt)
       /\ nrows out = 0
       /\ columns out
          = with_indicators (columns no_plots)
              "Indicator_1_treecover" "Indicator_2_commodities"
              "Indicator_3_disturbance_before_2020".
Proof.
  assert (H : nrows no_plots = 0) by reflexivity.
  split; [exact H|]. split.
  - exact (proj1 (whisp_risk_empty_table "percent" "Area"
                    (Fin 10) (Fin 10) (Fin 10) (Fin 10)
                    ["treecover"] ["cocoa"] ["loss_before_2020"]
                    ["loss_after_2020"]
                    "Indicator_1_treecover" "Indicator_2_commodities"
                    "Indicator_3_disturbance_before_2020"
                    "Indicator_4_disturbance_after_2020" "no" "yes"
                    no_plots H)).
  - apply (proj2 (whisp_risk_empty_table "percent" "Area"
                    (Fin 10) (Fin 10) (Fin 10) (Fin 10)
                    ["treecover"] ["cocoa"] ["loss_before_2020"]
                    ["loss_after_2020"]
                    "Indicator_1_treecover" "Indicator_2_commodities"
                    "Indicator_3_disturbance_before_2020"
                    "Indicator_4_disturbance_after_2020" "no" "yes"
                    no_plots H));
      try exact in_range_10.
    + intros c [<-|[<-|[<-|[]]]]; simpl; auto 6.
    + discriminate.
Defined.

Lemma eudr_risk_three_values_witness :
  classify classified_plots = (fst (classify classified_plots), Ok tt)
  /\ risk_value (cell_at (fst (classify classified_plots)) "EUDR_risk" 2).
Proof.
  assert (E : classify classified_plots
              = (fst (classify classified_plots), Ok tt)) by reflexivity.
  split; [exact E|].
  apply (proj1 eudr_risk_three_values _ _ _ _ _ _ 2 E). simpl. lia.
Defined.

Lemma add_eudr_risk_col_key_error_witness :
  0 < nrows plots
  /\ ~ In "Indicator_1_treecover" (columns plots)
  /\ classify plots = (plots, Raise (KeyError "Indicator_1_treecover")).
Proof.
  assert (H : 0 < nrows plots) by (simpl; lia).
  assert (N : ~ In "Indicator_1_treecover" (columns plots)).
  { simpl. intuition discriminate. }
  split; [exact H|]. split; [exact N|].
  exact (proj2 (add_eudr_risk_col_key_error
                  "Indicator_1_treecover" "Indicator_2_commodities"
                  "Indicator_3_disturbance_before_2020"
                  "Indicator_4_disturbance_after_2020" plots) H N).
Defined.

Lemma cocoa_ready :
  inputs_ready "percent" "Area" plots ["cocoa"] "Indicator".
Proof.
  split; [|discriminate].
  intros c [<-|[]]; (split; [discriminate|]); (split; [simpl; auto 6|]);
    intros [|[|i]] Hi; simpl in Hi; try lia; reflexivity.
Defined.

Lemma cocoa_ready_again :
  inputs_ready "percent" "Area" plots ["cocoa"] "Indicator_again".
Proof.
  split; [|discriminate].
  intros c [<-|[]]; (split; [discriminate|]); (split; [simpl; auto 6|]);
    intros [|[|i]] Hi; simpl in Hi; try lia; reflexivity.
Defined.

Lemma add_indicator_column_missing_column_witness :
  exists s,
    add_indicator_column "percent" "Area" (["cocoa"] ++ "coffee" :: ["treecover"])
      (Fin 10) "Indicator" (Some "no") (Some "yes") None plots
    = (s, Raise (KeyError "coffee"))
    /\ In "Indicator" (columns s)
    /\ forall i, i < nrows plots ->
         cell_at s "Indicator" i
         = CStr (if any_exceeds "percent" "Area" plots ["cocoa"] (Fin 10) i
                 then "yes" else "no").
Proof.
  apply (add_indicator_column_missing_column "percent" "Area" ["cocoa"] "coffee"
           ["treecover"] (Fin 10) "Indicator" "no" "yes" None plots eq_refl
           cocoa_ready).
  - simpl. intuition discriminate.
  - discriminate.
Defined.

Lemma add_indicator_column_ha_threshold_100_witness :
  let out := add_indicator_column "ha" "Area" ["cocoa"] (Fin 100) "Indicator"
               (Some "no") (Some "yes") None point_plots in
  out = (fst out, Ok tt)
  /\ cell_at (fst out) "Indicator" 0 = CStr "no".
Proof.
  intro out.
  assert (E : out = (fst out, Ok tt)) by reflexivity.
  assert (H : 0 < nrows point_plots) by (simpl; lia).
  split; [exact E|].
  exact (add_indicator_column_ha_threshold_100 "Area" ["cocoa"] (Fin 100)
           "Indicator" "no" "yes" None point_plots (fst out) 0
           eq_refl eq_refl E H).
Defined.

(** Arithmetic without rounding has the two laws. *)
Lemma exact_ops_sum : ieee_sum exact_ops.
Proof.
  intros [q| | |]; simpl; try exact I. apply Qplus_0_l.
Defined.

Lemma exact_ops_division : ieee_division exact_ops.
Proof.
  split; [|split; [|split; reflexivity]].
  - intros v a Ha Hv. simpl. apply Qeq_bool_iff in Ha. rewrite Ha.
    unfold signed_inf. apply Qltb_lt in Hv. now rewrite Hv.
  - intros v a Ha Hv. simpl. apply Qeq_bool_iff in Ha. rewrite Ha.
    unfold signed_inf.
    assert (P : Qltb 0 v = false).
    { destruct (Qltb 0 v) eqn:P; [|reflexivity]. apply Qltb_lt in P.
      rewrite Hv in P. exfalso. exact (Qlt_irrefl _ P). }
    assert (N : Qltb v 0 = false).
    { destruct (Qltb v 0) eqn:N; [|reflexivity]. apply Qltb_lt in N.
      rewrite Hv in N. exfalso. exact (Qlt_irrefl _ N). }
    now rewrite P, N.
Defined.

Lemma add_indicator_column_zero_area_witness :
  let out := add_indicator_column "ha" "Area" ["cocoa"] (Fin 99) "Indicator"
               (Some "no") (Some "yes") None point_plots in
  ieee_division exact_ops
  /\ out = (fst out, Ok tt)
  /\ cell_at (fst out) "Indicator" 0 = CStr "yes"
  /\ cell_at (fst out) "Indicator" 1 = CStr "no".
Proof.
  intro out.
  assert (E : out = (fst out, Ok tt)) by reflexivity.
  assert (H0 : 0 < nrows point_plots) by (simpl; lia).
  assert (H1 : 1 < nrows point_plots) by (simpl; lia).
  assert (Z0 : (0 == 0)%Q) by reflexivity.
  split; [exact exact_ops_division|].
  split; [exact E|]. split.
  - apply (proj1 (add_indicator_column_zero_area "Area" ["cocoa"] (Fin 99)
                    "Indicator" "no" "yes" None point_plots (fst out) 0 0
                    exact_ops_division eq_refl E H0 eq_refl Z0) "cocoa" 3%Q).
    + now left.
    + reflexivity.
    + reflexivity.
    + reflexivity.
  - apply (proj2 (add_indicator_column_zero_area "Area" ["cocoa"] (Fin 99)
                    "Indicator" "no" "yes" None point_plots (fst out) 1 0
                    exact_ops_division eq_refl E H1 eq_refl Z0)).
    intros col [<-|[]]. exists 0%Q. split; reflexivity.
Defined.

Lemma whisp_risk_ignores_fourth_inputs_witness :
  whisp_risk "percent" "Area" (Fin 10) (Fin 10) (Fin 10) (Fin 10)
    ["treecover"] ["cocoa"] ["loss_before_2020"] ["loss_after_2020"]
    "Indicator_1_treecover" "Indicator_2_commodities"
    "Indicator_3_disturbance_before_2020" "Indicator_4_disturbance_after_2020"
    "no" "yes" plots
  = whisp_risk "percent" "Area" (Fin 10) (Fin 10) (Fin 10) (Fin 100)
      ["treecover"] ["cocoa"] ["loss_before_2020"] ["no_such_column"]
      "Indicator_1_treecover" "Indicator_2_commodities"
      "Indicator_3_disturbance_before_2020" "Indicator_4_disturbance_after_2020"
      "no" "yes" plots.
Proof.
  apply whisp_risk_ignores_fourth_inputs.
  - exact in_range_10.
  - exists 100%Q. repeat split; apply Qle_bool_iff; reflexivity.
Defined.

Lemma add_indicator_column_again_witness :
  exists d1 d2,
    add_indicator_column "percent" "Area" ["cocoa"] (Fin 10) "Indicator"
      (Some "no") (Some "yes") None plots = (d1, Ok tt)
    /\ add_indicator_column "percent" "Area" ["cocoa"] (Fin 10) "Indicator_again"
         (Some "no") (Some "yes") None d1 = (d2, Ok tt)
    /\ forall i, i < nrows plots ->
         cell_at d2 "Indicator_again" i = cell_at d1 "Indicator" i.
Proof.
  exact (add_indicator_column_again "percent" "Area" ["cocoa"] (Fin 10)
           "Indicator" "Indicator_again" "no" "yes" None plots eq_refl
           cocoa_ready cocoa_ready_again).
Defined.

Lemma add_indicator_column_one_column_witness :
  let d_sum := fst (add_indicator_column "percent" "Area" ["cocoa"] (Fin (-1))
                      "Indicator" (Some "no") (Some "yes") (Some true) gap_plot) in
  let d_each := fst (add_indicator_column "percent" "Area" ["cocoa"] (Fin (-1))
                       "Indicator" (Some "no") (Some "yes") (Some false) gap_plot) in
  ieee_sum exact_ops
  /\ cell_at d_sum "Indicator" 0 = CStr "yes"
  /\ cell_at d_each "Indicator" 0 = CStr "no".
Proof.
  intros d_sum d_each. split; [exact exact_ops_sum|].
  assert (M : "percent" <> "ha") by discriminate.
  assert (H : 0 < nrows gap_plot) by (simpl; lia).
  assert (Es : add_indicator_column "percent" "Area" ["cocoa"] (Fin (-1))
                 "Indicator" (Some "no") (Some "yes") (Some true) gap_plot
               = (d_sum, Ok tt)) by reflexivity.
  assert (Ee : add_indicator_column "percent" "Area" ["cocoa"] (Fin (-1))
                 "Indicator" (Some "no") (Some "yes") (Some false) gap_plot
               = (d_each, Ok tt)) by reflexivity.
  exact (proj2 (add_indicator_column_one_column "percent" "Area" "cocoa"
                  (Fin (-1)) "Indicator" "no" "yes" gap_plot d_sum d_each 0
                  exact_ops_sum M Es Ee H) eq_refl eq_refl).
Defined.

Lemma clamp_float_witness :
  (exists r,
     clamp (VFloat (Fin 150)) 0 100 = VFloat (Fin r)
     /\ (0 <= r)%Q /\ (r <= 100)%Q
     /\ (forall q, Fin 150 = Fin q -> (0 <= q)%Q -> (q <= 100)%Q -> (r == q)%Q))
  /\ clamp (VFloat NaN) 0 100 = VFloat (Fin 0).
Proof.
  assert (H : (0 <= 100)%Q) by (apply Qle_bool_iff; reflexivity).
  split.
  - exact (proj1 (clamp_float 0 100 (Fin 150) H)).
  - exact (proj1 (proj2 (clamp_float 0 100 (Fin 150) H))).
Defined.

Lemma whisp_risk_without_fourth_column_witness :
  let out := whisp_risk_on (Fin 10) (Fin 10) (Fin 10) (Fin 10) one_plot in
  out = (fst out, Ok tt)
  /\ ~ In "Indicator_4_disturbance_after_2020" (columns one_plot)
  /\ cell_at (fst out) "EUDR_risk" 0 = CStr "low".
Proof.
  intro out.
  assert (E : out = (fst out, Ok tt)) by reflexivity.
  assert (N : ~ In "Indicator_4_disturbance_after_2020" (columns one_plot)).
  { simpl. intuition discriminate. }
  assert (H : 0 < nrows (fst out)) by (simpl; lia).
  split; [exact E|]. split; [exact N|].
  refine (whisp_risk_without_fourth_column _ _ _ _ _ _ _ _ _ _ _ _ _ _ _ _
            one_plot (fst out) 0 N _ _ _ E H); discriminate.
Defined.
